(** * Real-time quiz server: session store, broadcast hub and relay

    A shallow embedding of the Go packages [models] and [services]
    (models: Quiz, User, Answer, LeaderboardEntry and their methods;
    services: RedisService and QuizService), followed by the properties
    of the specification that concern them.

    Conventions of the embedding.
    - Go's [int] is the 64-bit signed integer: values are [Z] and every
      addition the code performs is wrapped by [Int.wrap].
    - [time.Time] is a [Z] (an instant), [*time.Time] an [option Z].
    - A Go map with string keys is a [gmap string _].  The quiz holds
      pointers to its users and the service pointers to its quizzes; no
      pointer is ever stored twice, so a mutation through the pointer is
      a functional update of the enclosing maps.
    - The order in which [range] visits a map is chosen by the runtime:
      it is an explicit argument of every function whose result may
      depend on it.
    - Values that come from outside (uuid, time.Now, outcome of a Redis
      command) are explicit arguments or are read from the Redis model.
    - The operations are run one at a time; the goroutine that saves
      the leaderboard runs when it is started.  The expiry of the Redis
      keys and the closing of a removed client's channel are left out. *)

From Stdlib Require Import ZArith Lia.
From stdpp Require Import base option list gmap strings sorting.

Local Open Scope Z_scope.

(** ** Go's int *)

Module Int.

Definition wrap (z : Z) : Z := (z + 2 ^ 63) mod 2 ^ 64 - 2 ^ 63.

Definition add (a b : Z) : Z := wrap (a + b).

Definition in_range (z : Z) : Prop := - 2 ^ 63 <= z < 2 ^ 63.

End Int.

(** ** package models *)

Inductive QuizStatus : Type :=
| QuizStatusWaiting
| QuizStatusActive
| QuizStatusEnded.

Global Instance QuizStatus_eq_dec : EqDecision QuizStatus.
Proof. solve_decision. Defined.

Record Question : Type := mkQuestion {
  q_ID : string;
  q_Text : string;
  q_Options : list string;
  q_Correct : Z;
  q_Points : Z;
  q_Category : string;
}.

Record Answer : Type := mkAnswer {
  a_QuestionID : string;
  a_Answer : Z;
  a_Correct : bool;
  a_Points : Z;
  a_AnsweredAt : Z;
}.

Record User : Type := mkUser {
  u_ID : string;
  u_Name : string;
  u_Score : Z;
  u_Answers : list Answer;
  u_JoinedAt : Z;
}.

Record Quiz : Type := mkQuiz {
  z_ID : string;
  z_Title : string;
  z_Questions : list Question;
  z_Participants : gmap string User;
  z_Status : QuizStatus;
  z_CreatedAt : Z;
  z_StartedAt : option Z;
  z_EndedAt : option Z;
}.

Record LeaderboardEntry : Type := mkEntry {
  e_UserID : string;
  e_Name : string;
  e_Score : Z;
  e_Position : Z;
}.

Record UserScore : Type := mkUserScore {
  s_UserID : string;
  s_Name : string;
  s_Score : Z;
}.

(** The payloads the service puts in a message ([interface{}] in Go),
    and [PDecoded] for the generic value [json.Unmarshal] builds when a
    message is read back from the wire. *)
Inductive Payload : Type :=
| PUserJoined (user_id name : string)
| PUserScore (s : UserScore)
| PLeaderboard (l : list LeaderboardEntry)
| PQuizStarted (quiz_id : string) (started_at : Z)
| PQuizEnded (quiz_id : string) (ended_at : Z)
| PDecoded (raw : string).

Record WebSocketMessage : Type := mkMessage {
  m_Type : string;
  m_Payload : Payload;
}.

(** *** Methods of User *)

Definition AddAnswer (u : User) (answer : Answer) : User :=
  mkUser (u_ID u) (u_Name u)
    (if a_Correct answer then Int.add (u_Score u) (a_Points answer)
     else u_Score u)
    (u_Answers u ++ [answer])
    (u_JoinedAt u).

Definition GetScore (u : User) : Z := u_Score u.

Fixpoint answered_in (answers : list Answer) (questionID : string) : bool :=
  match answers with
  | [] => false
  | answer :: rest =>
      if decide (a_QuestionID answer = questionID) then true
      else answered_in rest questionID
  end.

Definition HasAnswered (u : User) (questionID : string) : bool :=
  answered_in (u_Answers u) questionID.

(** *** Methods of Quiz *)

Definition set_Participants (q : Quiz) (ps : gmap string User) : Quiz :=
  mkQuiz (z_ID q) (z_Title q) (z_Questions q) ps (z_Status q)
    (z_CreatedAt q) (z_StartedAt q) (z_EndedAt q).

Definition AddParticipant (q : Quiz) (user : User) : Quiz :=
  set_Participants q (<[u_ID user := user]> (z_Participants q)).

Definition RemoveParticipant (q : Quiz) (userID : string) : Quiz :=
  set_Participants q (delete userID (z_Participants q)).

Definition GetParticipants (q : Quiz) : gmap string User := z_Participants q.

(** The entries in the order the [range] over [q.Participants] visits
    the keys [order]. *)
Definition collect_entries (ps : gmap string User) (order : list string)
  : list LeaderboardEntry :=
  omap (fun k => (fun user => mkEntry (u_ID user) (u_Name user) (u_Score user) 0)
                   <$> ps !! k) order.

(** [if entries[i].Score < entries[j].Score { swap }] *)
Definition swap_if_less (i j : nat) (entries : list LeaderboardEntry)
  : list LeaderboardEntry :=
  match entries !! i, entries !! j with
  | Some a, Some b =>
      if decide (e_Score a < e_Score b) then <[j := a]> (<[i := b]> entries)
      else entries
  | _, _ => entries
  end.

(** [for j := j0; j < j0 + n; j++] *)
Fixpoint inner_loop (n i j : nat) (entries : list LeaderboardEntry)
  : list LeaderboardEntry :=
  match n with
  | O => entries
  | S n' => inner_loop n' i (S j) (swap_if_less i j entries)
  end.

(** [for i := i0; i < i0 + n; i++ { for j := i + 1; j < len(entries); j++ }] *)
Fixpoint outer_loop (n i : nat) (entries : list LeaderboardEntry)
  : list LeaderboardEntry :=
  match n with
  | O => entries
  | S n' =>
      outer_loop n' (S i)
        (inner_loop (length entries - (i + 1))%nat i (i + 1)%nat entries)
  end.

Definition sort_entries (entries : list LeaderboardEntry)
  : list LeaderboardEntry :=
  outer_loop (length entries - 1)%nat 0%nat entries.

Definition add_positions (entries : list LeaderboardEntry)
  : list LeaderboardEntry :=
  imap (fun i e => mkEntry (e_UserID e) (e_Name e) (e_Score e)
                     (Z.of_nat i + 1)) entries.

Definition Quiz_GetLeaderboard (q : Quiz) (order : list string)
  : list LeaderboardEntry :=
  add_positions (sort_entries (collect_entries (z_Participants q) order)).

(** ** package services: RedisService *)

(** The errors the service returns ([fmt.Errorf] values in Go). *)
Inductive Error : Type :=
| ErrSaveQuiz                          (* failed to save quiz to Redis *)
| ErrQuizNotFound (quizID : string)    (* quiz not found: %s *)
| ErrUserNotFound (userID : string)    (* user not found: %s *)
| ErrAlreadyAnswered                   (* user already answered this question *)
| ErrQuestionNotFound (questionID : string) (* question not found: %s *)
| ErrNotWaiting.                       (* quiz is not in waiting status *)

Inductive result (A : Type) : Type :=
| Ok (a : A)
| Err (e : Error).
Arguments Ok {A} a.
Arguments Err {A} e.

(** The failure classes of the specification. *)
Inductive ErrorKind : Type := NotFound | Conflict | InvalidState | PersistenceError.

Definition kind_of (e : Error) : ErrorKind :=
  match e with
  | ErrSaveQuiz => PersistenceError
  | ErrQuizNotFound _ | ErrUserNotFound _ | ErrQuestionNotFound _ => NotFound
  | ErrAlreadyAnswered => Conflict
  | ErrNotWaiting => InvalidState
  end.

(** The Redis server as the client sees it: one map per key prefix
    ([quiz:], [user:], [leaderboard:]), the set [active_quizzes], the
    log of published messages, and the outcomes of the commands still
    to come ([true]: the command returns an error; none left: success). *)
Record RedisClient : Type := mkRedis {
  r_quiz : gmap string Quiz;
  r_user : gmap string User;
  r_leaderboard : gmap string (list LeaderboardEntry);
  r_active : gset string;
  r_published : list (string * WebSocketMessage);
  r_faults : list bool;
}.

(** [rs.client == nil] is [None]. *)
Abbreviation RedisService := (option RedisClient).

(** Issue one command: its outcome and the client afterwards. *)
Definition command (c : RedisClient) : bool * RedisClient :=
  match r_faults c with
  | [] => (false, c)
  | failed :: rest =>
      (failed, mkRedis (r_quiz c) (r_user c) (r_leaderboard c) (r_active c)
                 (r_published c) rest)
  end.

Definition set_quiz (c : RedisClient) (k : string) (q : Quiz) : RedisClient :=
  mkRedis (<[k := q]> (r_quiz c)) (r_user c) (r_leaderboard c) (r_active c)
    (r_published c) (r_faults c).

Definition set_user (c : RedisClient) (k : string) (u : User) : RedisClient :=
  mkRedis (r_quiz c) (<[k := u]> (r_user c)) (r_leaderboard c) (r_active c)
    (r_published c) (r_faults c).

Definition set_leaderboard (c : RedisClient) (k : string)
    (l : list LeaderboardEntry) : RedisClient :=
  mkRedis (r_quiz c) (r_user c) (<[k := l]> (r_leaderboard c)) (r_active c)
    (r_published c) (r_faults c).

Definition sadd_active (c : RedisClient) (k : string) : RedisClient :=
  mkRedis (r_quiz c) (r_user c) (r_leaderboard c) ({[ k ]} ∪ r_active c)
    (r_published c) (r_faults c).

Definition publish (c : RedisClient) (channel : string)
    (message : WebSocketMessage) : RedisClient :=
  mkRedis (r_quiz c) (r_user c) (r_leaderboard c) (r_active c)
    (r_published c ++ [(channel, message)]) (r_faults c).

Definition IsAvailable (rs : RedisService) : bool :=
  match rs with Some _ => true | None => false end.

(** [SaveQuiz]: [true] in the first component is a non-nil error. *)
Definition SaveQuiz (rs : RedisService) (quiz : Quiz) : bool * RedisService :=
  match rs with
  | None => (false, None)
  | Some c =>
      let '(failed, c1) := command c in                (* Set *)
      if failed then (true, Some c1)
      else
        let c2 := set_quiz c1 (z_ID quiz) quiz in
        let '(failed', c3) := command c2 in            (* SAdd *)
        if failed' then (false, Some c3)
        else (false, Some (sadd_active c3 (z_ID quiz)))
  end.

Definition Redis_GetQuiz (rs : RedisService) (quizID : string)
  : option Quiz * RedisService :=
  match rs with
  | None => (None, None)
  | Some c =>
      let '(failed, c1) := command c in                (* Get *)
      if failed then (None, Some c1)
      else (r_quiz c1 !! quizID, Some c1)
  end.

Definition SaveUser (rs : RedisService) (user : User) : bool * RedisService :=
  match rs with
  | None => (false, None)
  | Some c =>
      let '(failed, c1) := command c in                (* Set *)
      if failed then (true, Some c1)
      else (false, Some (set_user c1 (u_ID user) user))
  end.

Definition SaveLeaderboard (rs : RedisService) (quizID : string)
    (leaderboard : list LeaderboardEntry) : bool * RedisService :=
  match rs with
  | None => (false, None)
  | Some c =>
      let '(failed, c1) := command c in                (* Set *)
      if failed then (true, Some c1)
      else (false, Some (set_leaderboard c1 quizID leaderboard))
  end.

Definition PublishMessage (rs : RedisService) (channel : string)
    (message : WebSocketMessage) : bool * RedisService :=
  match rs with
  | None => (false, None)
  | Some c =>
      let '(failed, c1) := command c in                (* Publish *)
      if failed then (true, Some c1)
      else (false, Some (publish c1 channel message))
  end.

(** ** package services: QuizService *)

(** A client's [Send] channel: the queued messages and the capacity
    the channel was made with.  A channel is closed exactly when its
    client is deleted from the registry, so the channel of a registered
    client is open and a non-blocking send succeeds exactly when the
    buffer has room. *)
Record Client : Type := mkClient {
  c_ID : string;
  c_QuizID : string;
  c_UserID : string;
  c_Send : list WebSocketMessage;
  c_Cap : nat;
}.

(** [Clients] is keyed by the pointer to the client. *)
Record QuizService : Type := mkService {
  Quizzes : gmap string Quiz;
  Clients : gmap positive Client;
  Redis : RedisService;
}.

Definition set_Quizzes (qs : QuizService) (m : gmap string Quiz) : QuizService :=
  mkService m (Clients qs) (Redis qs).

Definition set_Clients (qs : QuizService) (m : gmap positive Client)
  : QuizService :=
  mkService (Quizzes qs) m (Redis qs).

Definition set_Redis (qs : QuizService) (rs : RedisService) : QuizService :=
  mkService (Quizzes qs) (Clients qs) rs.

Definition getSampleQuestions : list Question :=
  [ mkQuestion "q1" "What is the capital of Vietnam?"
      ["Hanoi"; "Ho Chi Minh City"; "Da Nang"; "Hue"] 0 10 "Geography";
    mkQuestion "q2" "Which programming language is this quiz written in?"
      ["Python"; "JavaScript"; "Go"; "Java"] 2 15 "Programming";
    mkQuestion "q3" "What is Redis primarily used for?"
      ["File storage"; "In-memory data store"; "Database backup";
       "Email service"] 1 20 "Technology";
    mkQuestion "q4" "What does WebSocket provide?"
      ["File upload"; "Real-time communication"; "Database queries";
       "Email sending"] 1 15 "Technology";
    mkQuestion "q5" "Which company owns Btaskee?"
      ["Grab"; "GoJek"; "Btaskee Pte Ltd"; "Lazada"] 2 10 "Business" ].

(** [quizID] is the value of [generateQuizID()], [now] of [time.Now()]. *)
Definition CreateQuiz (qs : QuizService) (title : string)
    (quizID : string) (now : Z) : result Quiz * QuizService :=
  let quiz := mkQuiz quizID title getSampleQuestions ∅ QuizStatusWaiting
                now None None in
  let '(err, rs) := SaveQuiz (Redis qs) quiz in
  if err then (Err ErrSaveQuiz, set_Redis qs rs)
  else (Ok quiz, mkService (<[quizID := quiz]> (Quizzes qs)) (Clients qs) rs).

Definition GetQuiz (qs : QuizService) (quizID : string)
  : result Quiz * QuizService :=
  match Quizzes qs !! quizID with
  | Some quiz => (Ok quiz, qs)
  | None =>
      match Redis_GetQuiz (Redis qs) quizID with
      | (None, rs) => (Err (ErrQuizNotFound quizID), set_Redis qs rs)
      | (Some quiz, rs) =>
          (Ok quiz, mkService (<[quizID := quiz]> (Quizzes qs)) (Clients qs) rs)
      end
  end.

(** *** The hub *)

Definition RegisterClient (qs : QuizService) (ptr : positive) (client : Client)
  : QuizService :=
  set_Clients qs (<[ptr := client]> (Clients qs)).

Definition UnregisterClient (qs : QuizService) (ptr : positive) : QuizService :=
  match Clients qs !! ptr with
  | Some _ => set_Clients qs (delete ptr (Clients qs))
  | None => qs
  end.

(** The client with [data] added to its queue. *)
Definition enqueue (data : WebSocketMessage) (c : Client) : Client :=
  mkClient (c_ID c) (c_QuizID c) (c_UserID c) (c_Send c ++ [data]) (c_Cap c).

(** [select { case client.Send <- data: default: }] *)
Definition try_send (data : WebSocketMessage) (c : Client) : option Client :=
  if decide (length (c_Send c) < c_Cap c)%nat then Some (enqueue data c)
  else None.

(** The first loop of [broadcastToQuiz], over the pointers in [order]:
    the registry after the sends and [clientsToRemove]. *)
Fixpoint fan_out (quizID : string) (data : WebSocketMessage)
    (order : list positive) (cs : gmap positive Client)
    (clientsToRemove : list positive) : gmap positive Client * list positive :=
  match order with
  | [] => (cs, clientsToRemove)
  | ptr :: rest =>
      match cs !! ptr with
      | Some client =>
          if decide (c_QuizID client = quizID) then
            match try_send data client with
            | Some client' =>
                fan_out quizID data rest (<[ptr := client']> cs) clientsToRemove
            | None =>
                fan_out quizID data rest cs (clientsToRemove ++ [ptr])
            end
          else fan_out quizID data rest cs clientsToRemove
      | None => fan_out quizID data rest cs clientsToRemove
      end
  end.

(** The second loop: delete (and close) the clients marked. *)
Fixpoint remove_dead (clientsToRemove : list positive)
    (cs : gmap positive Client) : gmap positive Client :=
  match clientsToRemove with
  | [] => cs
  | ptr :: rest =>
      match cs !! ptr with
      | Some _ => remove_dead rest (delete ptr cs)
      | None => remove_dead rest cs
      end
  end.

(** The local part of [broadcastToQuiz], for a given iteration order. *)
Definition deliver_local (quizID : string) (data : WebSocketMessage)
    (order : list positive) (cs : gmap positive Client) : gmap positive Client :=
  let '(cs1, clientsToRemove) := fan_out quizID data order cs [] in
  remove_dead clientsToRemove cs1.

(** [broadcastToQuiz] when the [range] visits the registry in [order]. *)
Definition broadcastToQuiz_in (order : list positive) (qs : QuizService)
    (quizID : string) (message : WebSocketMessage) : QuizService :=
  let cs := deliver_local quizID message order (Clients qs) in
  let '(_, rs) := PublishMessage (Redis qs) ("quiz:" +:+ quizID) message in
  mkService (Quizzes qs) cs rs.

(** The result does not depend on the order (lemma
    [deliver_local_order] below); the operations of the service use the
    enumeration of the keys. *)
Definition broadcastToQuiz (qs : QuizService) (quizID : string)
    (message : WebSocketMessage) : QuizService :=
  broadcastToQuiz_in (map_to_list (Clients qs)).*1 qs quizID message.

(** *** The session store *)

(** [GetLeaderboard]; [order] is the order in which the range over the
    participants visits the user ids.  The goroutine that saves the
    leaderboard is run when it is started. *)
Definition GetLeaderboard (qs : QuizService) (quizID : string)
    (order : list string) : result (list LeaderboardEntry) * QuizService :=
  match GetQuiz qs quizID with
  | (Err e, qs1) => (Err e, qs1)
  | (Ok quiz, qs1) =>
      let leaderboard := Quiz_GetLeaderboard quiz order in
      let '(_, rs) := SaveLeaderboard (Redis qs1) quizID leaderboard in
      (Ok leaderboard, set_Redis qs1 rs)
  end.

Definition broadcastLeaderboard (qs : QuizService) (quizID : string)
    (order : list string) : QuizService :=
  match GetLeaderboard qs quizID order with
  | (Err _, qs1) => qs1
  | (Ok leaderboard, qs1) =>
      broadcastToQuiz qs1 quizID
        (mkMessage "leaderboard_update" (PLeaderboard leaderboard))
  end.

(** [userID] is the value of [generateUserID()], [now] of [time.Now()]. *)
Definition JoinQuiz (qs : QuizService) (quizID userName : string)
    (userID : string) (now : Z) (order : list string)
  : result User * QuizService :=
  match GetQuiz qs quizID with
  | (Err e, qs1) => (Err e, qs1)
  | (Ok quiz, qs1) =>
      let user := mkUser userID userName 0 [] now in
      let quiz' := AddParticipant quiz user in
      let qs2 := set_Quizzes qs1 (<[quizID := quiz']> (Quizzes qs1)) in
      let '(_, rs3) := SaveQuiz (Redis qs2) quiz' in
      let '(_, rs4) := SaveUser rs3 user in
      let qs4 := set_Redis qs2 rs4 in
      let qs5 := broadcastToQuiz qs4 quizID
                   (mkMessage "user_joined" (PUserJoined userID userName)) in
      (Ok user, broadcastLeaderboard qs5 quizID order)
  end.

(** [for _, q := range quiz.Questions { if q.ID == questionID { ...; break } }] *)
Fixpoint find_question (questions : list Question) (questionID : string)
  : option Question :=
  match questions with
  | [] => None
  | q :: rest =>
      if decide (q_ID q = questionID) then Some q
      else find_question rest questionID
  end.

(** The answer record [SubmitAnswer] builds for a question. *)
Definition grade (question : Question) (questionID : string) (answer now : Z)
  : Answer :=
  let isCorrect := bool_decide (answer = q_Correct question) in
  let points := if isCorrect then q_Points question else 0 in
  mkAnswer questionID answer isCorrect points now.

(** [None] is the nil error. *)
Definition SubmitAnswer (qs : QuizService) (quizID userID questionID : string)
    (answer : Z) (now : Z) (order : list string) : option Error * QuizService :=
  match GetQuiz qs quizID with
  | (Err e, qs1) => (Some e, qs1)
  | (Ok quiz, qs1) =>
      match z_Participants quiz !! userID with
      | None => (Some (ErrUserNotFound userID), qs1)
      | Some user =>
          if HasAnswered user questionID then (Some ErrAlreadyAnswered, qs1)
          else
            match find_question (z_Questions quiz) questionID with
            | None => (Some (ErrQuestionNotFound questionID), qs1)
            | Some question =>
                let answerRecord := grade question questionID answer now in
                let user' := AddAnswer user answerRecord in
                let quiz' := set_Participants quiz
                               (<[userID := user']> (z_Participants quiz)) in
                let qs2 := set_Quizzes qs1 (<[quizID := quiz']> (Quizzes qs1)) in
                let '(_, rs3) := SaveQuiz (Redis qs2) quiz' in
                let '(_, rs4) := SaveUser rs3 user' in
                let qs4 := set_Redis qs2 rs4 in
                let qs5 := broadcastToQuiz qs4 quizID
                             (mkMessage "score_update"
                                (PUserScore (mkUserScore userID (u_Name user')
                                               (GetScore user')))) in
                (None, broadcastLeaderboard qs5 quizID order)
            end
      end
  end.

Definition set_Status (q : Quiz) (st : QuizStatus) (started ended : option Z)
  : Quiz :=
  mkQuiz (z_ID q) (z_Title q) (z_Questions q) (z_Participants q) st
    (z_CreatedAt q) started ended.

Definition StartQuiz (qs : QuizService) (quizID : string) (now : Z)
  : option Error * QuizService :=
  match GetQuiz qs quizID with
  | (Err e, qs1) => (Some e, qs1)
  | (Ok quiz, qs1) =>
      if decide (z_Status quiz <> QuizStatusWaiting)
      then (Some ErrNotWaiting, qs1)
      else
        let quiz' := set_Status quiz QuizStatusActive (Some now)
                       (z_EndedAt quiz) in
        let qs2 := set_Quizzes qs1 (<[quizID := quiz']> (Quizzes qs1)) in
        let '(_, rs3) := SaveQuiz (Redis qs2) quiz' in
        (None, broadcastToQuiz (set_Redis qs2 rs3) quizID
                 (mkMessage "quiz_started" (PQuizStarted quizID now)))
  end.

Definition EndQuiz (qs : QuizService) (quizID : string) (now : Z)
  : option Error * QuizService :=
  match GetQuiz qs quizID with
  | (Err e, qs1) => (Some e, qs1)
  | (Ok quiz, qs1) =>
      let quiz' := set_Status quiz QuizStatusEnded (z_StartedAt quiz)
                     (Some now) in
      let qs2 := set_Quizzes qs1 (<[quizID := quiz']> (Quizzes qs1)) in
      let '(_, rs3) := SaveQuiz (Redis qs2) quiz' in
      (None, broadcastToQuiz (set_Redis qs2 rs3) quizID
               (mkMessage "quiz_ended" (PQuizEnded quizID now)))
  end.

(** *** The relay *)

(** [s[n:]] for [n <= len(s)]. *)
Fixpoint string_from (n : nat) (s : string) : string :=
  match n, s with
  | O, _ => s
  | S n', String _ s' => string_from n' s'
  | S _, EmptyString => EmptyString
  end.

(** A message of the subscription: its channel and its payload as
    [json.Unmarshal] decodes it ([None]: it does not decode). *)
Record RedisMessage : Type := mkRedisMessage {
  msg_Channel : string;
  msg_Payload : option WebSocketMessage;
}.

(** One turn of the loop of [startRedisSubscription] on a received
    message; [None] is the panic of [msg.Channel[5:]] on a channel name
    shorter than the prefix. *)
Definition relay_step (qs : QuizService) (msg : RedisMessage)
  : option QuizService :=
  match msg_Payload msg with
  | None => Some qs
  | Some message =>
      if decide (String.length (msg_Channel msg) < 5)%nat then None
      else Some (broadcastToQuiz qs (string_from 5 (msg_Channel msg)) message)
  end.

(** The loop over what [ReceiveMessage] returns: [None] is an error of
    the subscription, after which the loop ends. *)
Fixpoint subscription_loop (qs : QuizService)
    (inbound : list (option RedisMessage)) : option QuizService :=
  match inbound with
  | [] => Some qs
  | None :: _ => Some qs
  | Some msg :: rest =>
      match relay_step qs msg with
      | Some qs' => subscription_loop qs' rest
      | None => None
      end
  end.

Definition startRedisSubscription (qs : QuizService)
    (inbound : list (option RedisMessage)) : option QuizService :=
  if IsAvailable (Redis qs) then subscription_loop qs inbound else Some qs.

(** ** The rest of RedisService and of QuizService *)

(** The errors of the reads of RedisService. *)
Inductive RedisError : Type :=
| ErrRedisNotAvailable            (* Redis not available *)
| ErrKeyNotFound (key : string)   (* ... not found: %s *)
| ErrRedisCommand.                (* failed to get ... from Redis *)

Inductive redis_result (A : Type) : Type :=
| ROk (a : A)
| RErr (e : RedisError).
Arguments ROk {A} a.
Arguments RErr {A} e.

Definition del_quiz (c : RedisClient) (k : string) : RedisClient :=
  mkRedis (delete k (r_quiz c)) (r_user c) (r_leaderboard c) (r_active c)
    (r_published c) (r_faults c).

Definition del_leaderboard (c : RedisClient) (k : string) : RedisClient :=
  mkRedis (r_quiz c) (r_user c) (delete k (r_leaderboard c)) (r_active c)
    (r_published c) (r_faults c).

Definition srem_active (c : RedisClient) (k : string) : RedisClient :=
  mkRedis (r_quiz c) (r_user c) (r_leaderboard c) (r_active c ∖ {[ k ]})
    (r_published c) (r_faults c).

Definition Redis_GetUser (rs : RedisService) (userID : string)
  : redis_result User * RedisService :=
  match rs with
  | None => (RErr ErrRedisNotAvailable, None)
  | Some c =>
      let '(failed, c1) := command c in                (* Get *)
      if failed then (RErr ErrRedisCommand, Some c1)
      else
        match r_user c1 !! userID with
        | Some user => (ROk user, Some c1)
        | None => (RErr (ErrKeyNotFound userID), Some c1)
        end
  end.

(** A leaderboard that is not there is the empty leaderboard, not an
    error. *)
Definition Redis_GetLeaderboard (rs : RedisService) (quizID : string)
  : redis_result (list LeaderboardEntry) * RedisService :=
  match rs with
  | None => (RErr ErrRedisNotAvailable, None)
  | Some c =>
      let '(failed, c1) := command c in                (* Get *)
      if failed then (RErr ErrRedisCommand, Some c1)
      else
        match r_leaderboard c1 !! quizID with
        | Some leaderboard => (ROk leaderboard, Some c1)
        | None => (ROk [], Some c1)
        end
  end.

(** [members] is the reply of SMEMBERS: the active set in the order the
    server lists it. *)
Definition GetActiveQuizzes (rs : RedisService) (members : list string)
  : redis_result (list string) * RedisService :=
  match rs with
  | None => (ROk [], None)
  | Some c =>
      let '(failed, c1) := command c in                (* SMembers *)
      if failed then (RErr ErrRedisCommand, Some c1)
      else (ROk members, Some c1)
  end.

(** [DeleteQuiz] logs the failures of its three commands and returns
    nil ([false]) in every case. *)
Definition Redis_DeleteQuiz (rs : RedisService) (quizID : string)
  : bool * RedisService :=
  match rs with
  | None => (false, None)
  | Some c =>
      let '(failed1, c1) := command c in               (* Del quiz:<id> *)
      let c2 := if failed1 then c1 else del_quiz c1 quizID in
      let '(failed2, c3) := command c2 in              (* Del leaderboard:<id> *)
      let c4 := if failed2 then c3 else del_leaderboard c3 quizID in
      let '(failed3, c5) := command c4 in              (* SRem *)
      let c6 := if failed3 then c5 else srem_active c5 quizID in
      (false, Some c6)
  end.

(** The loop of [loadQuizzesFromRedis] over the active ids. *)
Fixpoint load_quizzes (qs : QuizService) (activeQuizzes : list string)
  : QuizService :=
  match activeQuizzes with
  | [] => qs
  | quizID :: rest =>
      match Redis_GetQuiz (Redis qs) quizID with
      | (None, rs) => load_quizzes (set_Redis qs rs) rest
      | (Some quiz, rs) =>
          load_quizzes
            (mkService (<[quizID := quiz]> (Quizzes qs)) (Clients qs) rs) rest
      end
  end.

Definition loadQuizzesFromRedis (qs : QuizService) (members : list string)
  : QuizService :=
  if IsAvailable (Redis qs) then
    match GetActiveQuizzes (Redis qs) members with
    | (RErr _, rs) => set_Redis qs rs
    | (ROk activeQuizzes, rs) => load_quizzes (set_Redis qs rs) activeQuizzes
    end
  else qs.

(** [NewQuizService] up to the start of the subscription, which runs
    beside the service ([startRedisSubscription]). *)
Definition NewQuizService (redisService : RedisService)
    (members : list string) : QuizService :=
  loadQuizzesFromRedis (mkService ∅ ∅ redisService) members.

(** ** package handlers: HTTPHandler.DeleteQuiz *)

(** The status of the response and the service afterwards. *)
Definition HTTP_DeleteQuiz (qs : QuizService) (quizID : string)
  : nat * QuizService :=
  if decide (quizID = "") then (400%nat, qs)
  else
    let qs1 := set_Quizzes qs (delete quizID (Quizzes qs)) in
    let '(err, rs) := Redis_DeleteQuiz (Redis qs1) quizID in
    if err then (500%nat, set_Redis qs1 rs) else (200%nat, set_Redis qs1 rs).

(** ** package handlers: HTTPHandler.GetActiveQuizzes *)

(** The loop of the handler over the active ids: the quizzes that
    could be loaded, in the order of the ids. *)
Fixpoint collect_quizzes (qs : QuizService) (activeQuizzes : list string)
  : list Quiz * QuizService :=
  match activeQuizzes with
  | [] => ([], qs)
  | quizID :: rest =>
      match GetQuiz qs quizID with
      | (Err _, qs1) => collect_quizzes qs1 rest
      | (Ok quiz, qs1) =>
          let '(quizzes, qs2) := collect_quizzes qs1 rest in
          (quiz :: quizzes, qs2)
      end
  end.

(** The status, the quizzes of the response (its count is their
    number) and the service afterwards. *)
Definition HTTP_GetActiveQuizzes (qs : QuizService) (members : list string)
  : nat * list Quiz * QuizService :=
  match GetActiveQuizzes (Redis qs) members with
  | (RErr _, rs) => (500%nat, [], set_Redis qs rs)
  | (ROk activeQuizzes, rs) =>
      let '(quizzes, qs') := collect_quizzes (set_Redis qs rs) activeQuizzes in
      (200%nat, quizzes, qs')
  end.

(** * Predicates of the specification *)

(** [y] does not beat [x]. *)
Definition below (x y : LeaderboardEntry) : Prop := (e_Score y <= e_Score x)%Z.

(** Position [i] holds an entry no later position before [j] beats. *)
Definition dominates (es : list LeaderboardEntry) (i j : nat) : Prop :=
  forall k x y, (i < k < j)%nat -> es !! i = Some x -> es !! k = Some y -> below x y.

(** The first [i] positions are final: none is beaten by a later entry. *)
Definition sorted_upto (es : list LeaderboardEntry) (i : nat) : Prop :=
  forall k m x y, (k < i)%nat -> (k < m)%nat ->
    es !! k = Some x -> es !! m = Some y -> below x y.

(** What an entry tells about its participant. *)
Definition entry_key (e : LeaderboardEntry) : string * string * Z :=
  (e_UserID e, e_Name e, e_Score e).

Definition user_key (u : User) : string * string * Z :=
  (u_ID u, u_Name u, u_Score u).

(** [order] is an order in which the runtime may visit the keys of [m]. *)
Definition range_of `{Countable K} {A} (m : gmap K A) (order : list K) : Prop :=
  order ≡ₚ (map_to_list m).*1.

(** What one broadcast does to a registered client: a client of the
    quiz with room in its queue gets the message, a client of the quiz
    with a full queue is dropped ([None]), any other client is left as
    it is. *)
Definition delivered (quizID : string) (data : WebSocketMessage) (c : Client)
  : option Client :=
  if decide (c_QuizID c = quizID) then try_send data c else Some c.

(** The client after the first loop, and whether the loop marked it. *)
Definition sent (quizID : string) (data : WebSocketMessage) (c : Client)
  : Client :=
  if decide (c_QuizID c = quizID) then default c (try_send data c) else c.

Definition dead (quizID : string) (data : WebSocketMessage) (c : Client)
  : Prop :=
  c_QuizID c = quizID /\ try_send data c = None.

(** The leaderboard [lb] of the participants [ps]: sorted by score in
    descending order, one entry per participant, positions 1..N. *)
Definition ranked_leaderboard (ps : gmap string User)
    (lb : list LeaderboardEntry) : Prop :=
  (forall (i j : nat) x y, (i < j)%nat -> lb !! i = Some x -> lb !! j = Some y ->
     e_Score y <= e_Score x) /\
  entry_key <$> lb ≡ₚ user_key <$> (map_to_list ps).*2 /\
  length lb = size ps /\
  e_Position <$> lb = (fun i => Z.of_nat i + 1) <$> seq 0 (length lb).

(** What the Redis server holds, whatever the client's future command
    outcomes: the keys, the active set and the published messages. *)
Definition stored (rs : RedisService)
  : option (gmap string Quiz * gmap string User
            * gmap string (list LeaderboardEntry) * gset string
            * list (string * WebSocketMessage)) :=
  (fun c => (r_quiz c, r_user c, r_leaderboard c, r_active c, r_published c))
    <$> rs.

(** The quizzes Redis holds (none without Redis). *)
Definition redis_quizzes (rs : RedisService) : gmap string Quiz :=
  match rs with Some c => r_quiz c | None => ∅ end.

(** The messages published so far. *)
Definition redis_published (rs : RedisService)
  : list (string * WebSocketMessage) :=
  match rs with Some c => r_published c | None => [] end.

(** The quiz the service works on for an id: the one in memory, else
    the one in Redis. *)
Definition known_quiz (qs : QuizService) (quizID : string) : option Quiz :=
  match Quizzes qs !! quizID with
  | Some quiz => Some quiz
  | None => redis_quizzes (Redis qs) !! quizID
  end.

(** [I] holds of every quiz of the service, in memory and in Redis. *)
Definition all_quizzes (I : Quiz -> Prop) (qs : QuizService) : Prop :=
  (forall id q, Quizzes qs !! id = Some q -> I q) /\
  (forall id q, redis_quizzes (Redis qs) !! id = Some q -> I q).

(** [P] holds of every participant of the quiz. *)
Definition all_participants (P : User -> Prop) (q : Quiz) : Prop :=
  forall uid u, z_Participants q !! uid = Some u -> P u.

(** The answer log of [u] has [questionID]. *)
Definition answered (u : User) (questionID : string) : Prop :=
  exists a, a ∈ u_Answers u /\ a_QuestionID a = questionID.

(** At most one answer per question id. *)
Definition one_answer_per_question (u : User) : Prop :=
  NoDup (a_QuestionID <$> u_Answers u).

(** The points an answer adds to the score. *)
Definition earned (a : Answer) : Z := if a_Correct a then a_Points a else 0.

(** The sum of the points of the correct answers. *)
Fixpoint sum_correct (answers : list Answer) : Z :=
  match answers with
  | [] => 0
  | a :: rest => earned a + sum_correct rest
  end.

(** The score is the sum of the points of the correct answers, as an
    [int]. *)
Definition score_consistent (u : User) : Prop :=
  u_Score u = Int.wrap (sum_correct (u_Answers u)).

(** The quiz after [user], a participant under [userID], has been
    replaced by [user']. *)
Definition with_user (quiz : Quiz) (userID : string) (user' : User) : Quiz :=
  set_Participants quiz (<[userID := user']> (z_Participants quiz)).

(** The operations of the service, with the values they get from
    outside. *)
Inductive Op : Type :=
| OpCreateQuiz (title quizID : string) (now : Z)
| OpJoinQuiz (quizID userName userID : string) (now : Z) (order : list string)
| OpSubmitAnswer (quizID userID questionID : string) (answer now : Z)
    (order : list string)
| OpGetLeaderboard (quizID : string) (order : list string)
| OpStartQuiz (quizID : string) (now : Z)
| OpEndQuiz (quizID : string) (now : Z)
| OpRegisterClient (ptr : positive) (client : Client)
| OpUnregisterClient (ptr : positive)
| OpGetQuiz (quizID : string).

Definition run (qs : QuizService) (op : Op) : QuizService :=
  match op with
  | OpCreateQuiz title quizID now => snd (CreateQuiz qs title quizID now)
  | OpJoinQuiz quizID userName userID now order =>
      snd (JoinQuiz qs quizID userName userID now order)
  | OpSubmitAnswer quizID userID questionID answer now order =>
      snd (SubmitAnswer qs quizID userID questionID answer now order)
  | OpGetLeaderboard quizID order => snd (GetLeaderboard qs quizID order)
  | OpStartQuiz quizID now => snd (StartQuiz qs quizID now)
  | OpEndQuiz quizID now => snd (EndQuiz qs quizID now)
  | OpRegisterClient ptr client => RegisterClient qs ptr client
  | OpUnregisterClient ptr => UnregisterClient qs ptr
  | OpGetQuiz quizID => snd (GetQuiz qs quizID)
  end.

Definition run_all (qs : QuizService) (ops : list Op) : QuizService :=
  foldl run qs ops.




(** A user of a quiz on the sample questions: at most one answer per
    question, every answer for a sample question and worth at most the
    20 points of the dearest of them, and a consistent score. *)
Definition sample_user (u : User) : Prop :=
  one_answer_per_question u /\
  score_consistent u /\
  Forall (fun a => a_QuestionID a ∈ (q_ID <$> getSampleQuestions) /\
                   0 <= earned a <= 20) (u_Answers u).

(** A quiz as [CreateQuiz] makes them and the operations keep them. *)
Definition sample_quiz (q : Quiz) : Prop :=
  z_Questions q = getSampleQuestions /\ all_participants sample_user q.

(** The quiz [CreateQuiz] builds. *)
Definition new_quiz (title quizID : string) (now : Z) : Quiz :=
  mkQuiz quizID title getSampleQuestions ∅ QuizStatusWaiting now None None.




(** A Redis that is there and answers every command to come. *)
Definition healthy (rs : RedisService) : Prop :=
  exists c, rs = Some c /\ r_faults c = [].

(** The same connection, with possibly more messages queued after the
    ones it had. *)
Definition queue_grows (c c' : Client) : Prop :=
  c_ID c' = c_ID c /\ c_QuizID c' = c_QuizID c /\ c_UserID c' = c_UserID c /\
  c_Cap c' = c_Cap c /\ c_Send c `prefix_of` c_Send c'.

(** Every client of [cs'] was a client of [cs], under the same pointer. *)
Definition registry_evolves (cs cs' : gmap positive Client) : Prop :=
  forall p c', cs' !! p = Some c' -> exists c, cs !! p = Some c /\ queue_grows c c'.

(** No queue holds more than its capacity. *)
Definition queues_bounded (cs : gmap positive Client) : Prop :=
  forall p c, cs !! p = Some c -> (length (c_Send c) <= c_Cap c)%nat.

Definition is_register (op : Op) : Prop :=
  match op with OpRegisterClient _ _ => True | _ => False end.

(** The channel of a quiz and the events of the service. *)
Definition channel_of (quizID : string) : string := "quiz:" +:+ quizID.

Definition score_update (userID : string) (user : User) : WebSocketMessage :=
  mkMessage "score_update"
    (PUserScore (mkUserScore userID (u_Name user) (u_Score user))).

Definition leaderboard_update (lb : list LeaderboardEntry) : WebSocketMessage :=
  mkMessage "leaderboard_update" (PLeaderboard lb).

Definition user_joined (userID userName : string) : WebSocketMessage :=
  mkMessage "user_joined" (PUserJoined userID userName).

(** The registry after the clients of [quizID] have been sent the
    events [events], one broadcast after the other. *)
Definition after_events (quizID : string) (events : list WebSocketMessage)
    (cs : gmap positive Client) (p : positive) : option Client :=
  foldl (fun oc event => oc ≫= delivered quizID event) (cs !! p) events.

(** Two results of an operation that agree on the value returned, on
    the quizzes in memory and on the registry of clients. *)
Definition same_outcome {A} (r1 r2 : A * QuizService) : Prop :=
  fst r1 = fst r2 /\ Quizzes (snd r1) = Quizzes (snd r2) /\
  Clients (snd r1) = Clients (snd r2).

(** The quiz with another status and other stamps. *)
Definition restamped (qs : QuizService) (quizID : string) (quiz : Quiz)
    (st : QuizStatus) (started ended : option Z) : QuizService :=
  set_Quizzes qs (<[quizID := set_Status quiz st started ended]> (Quizzes qs)).

Definition quiz_started (quizID : string) (now : Z) : WebSocketMessage :=
  mkMessage "quiz_started" (PQuizStarted quizID now).

Definition quiz_ended (quizID : string) (now : Z) : WebSocketMessage :=
  mkMessage "quiz_ended" (PQuizEnded quizID now).





(** * Sessions for the examples *)

Definition alice : User :=
  mkUser "u1" "Alice" 10 [mkAnswer "q1" 0 true 10 5] 1.

Definition bob : User :=
  mkUser "u2" "Bob" 0 [mkAnswer "q1" 1 false 0 6] 2.

Definition geo : Quiz :=
  mkQuiz "geo" "Geo" getSampleQuestions
    (<["u1" := alice]> (<["u2" := bob]> ∅)) QuizStatusActive 0 (Some 3) None.

(** A service without Redis ([client == nil]) that holds [geo]. *)
Definition local_service : QuizService :=
  mkService (<["geo" := geo]> ∅) ∅ None.

Definition carol : User :=
  mkUser "u3" "Carol" 10 [mkAnswer "q1" 0 true 10 7] 3.

(** Alice and Carol have the same score; Alice joined first. *)
Definition tied : Quiz :=
  mkQuiz "tied" "Tied" getSampleQuestions
    (<["u1" := alice]> (<["u3" := carol]> ∅)) QuizStatusActive 0 (Some 3) None.

Definition tied_service : QuizService :=
  mkService (<["tied" := tied]> ∅) ∅ None.

Definition ping : WebSocketMessage := mkMessage "quiz_started" (PQuizStarted "geo" 3).

(** Three connections: one of [geo] with room, one of [geo] whose queue
    of capacity 1 is full, one of another quiz. *)
Definition hub_service : QuizService :=
  mkService (<["geo" := geo]> ∅)
    (<[1%positive := mkClient "c1" "geo" "u1" [] 256]>
       (<[2%positive := mkClient "c2" "geo" "u2" [ping] 1]>
          (<[3%positive := mkClient "c3" "tied" "u3" [] 256]> ∅)))
    None.

(** The service of [NewQuizService] when Redis is not available. *)
Definition empty_service : QuizService := mkService ∅ ∅ None.

(** The scenario of the specification: create "Geo", Alice and Bob
    join, start, Alice answers q1 correctly and Bob incorrectly. *)
Definition scenario : list Op :=
  [ OpCreateQuiz "Geo" "geo1" 0;
    OpJoinQuiz "geo1" "Alice" "u1" 1 ["u1"];
    OpJoinQuiz "geo1" "Bob" "u2" 2 ["u1"; "u2"];
    OpStartQuiz "geo1" 3;
    OpSubmitAnswer "geo1" "u1" "q1" 0 4 ["u1"; "u2"];
    OpSubmitAnswer "geo1" "u2" "q1" 1 5 ["u2"; "u1"] ].

(** A Redis server that holds nothing, whose next command fails. *)
Definition failing_redis : RedisClient := mkRedis ∅ ∅ ∅ ∅ [] [true].

(** A Redis server that holds nothing and answers every command. *)
Definition working_redis : RedisClient := mkRedis ∅ ∅ ∅ ∅ [] [].

(** An event on the channel of [geo], as the subscription hands it to
    the relay. *)
Definition inbound : RedisMessage := mkRedisMessage "quiz:geo" (Some ping).

(** A service with a working Redis, no quiz and no client. *)
Definition relay_service : QuizService := mkService ∅ ∅ (Some working_redis).

(** A service that holds one quiz, just created. *)
Definition waiting_service : QuizService :=
  snd (CreateQuiz empty_service "Geo" "geo1" 0).

(** The service [hub_service] with a Redis that answers. *)
Definition healthy_service : QuizService :=
  set_Redis hub_service (Some working_redis).

(** * Properties *)

(** ** Go's int *)

Lemma wrap_in_range z : Int.in_range z -> Int.wrap z = z.
Proof.
  unfold Int.in_range, Int.wrap. intros H.
  rewrite Z.mod_small; lia.
Qed.

Lemma wrap_range z : Int.in_range (Int.wrap z).
Proof.
  unfold Int.in_range, Int.wrap.
  pose proof (Z.mod_pos_bound (z + 2 ^ 63) (2 ^ 64)). lia.
Qed.

Lemma wrap_add_l a b : Int.wrap (Int.wrap a + b) = Int.wrap (a + b).
Proof.
  unfold Int.wrap.
  replace ((a + 2 ^ 63) mod 2 ^ 64 - 2 ^ 63 + b + 2 ^ 63)
    with ((a + 2 ^ 63) mod 2 ^ 64 + b) by lia.
  replace (a + b + 2 ^ 63) with ((a + 2 ^ 63) + b) by lia.
  rewrite Zplus_mod_idemp_l. reflexivity.
Qed.


(** ** The leaderboard sort *)

Section exchange_sort.

Local Close Scope Z_scope.

Implicit Types (es : list LeaderboardEntry) (i j k m n : nat).

Lemma insert_cons_Permutation {A} (l : list A) k a b :
  l !! k = Some b -> a :: l ≡ₚ b :: <[k := a]> l.
Proof.
  intros Hk.
  rewrite insert_take_drop by (eapply lookup_lt_Some; eassumption).
  rewrite <- (take_drop_middle l k b Hk) at 1.
  rewrite <- !Permutation_middle. apply perm_swap.
Qed.

Lemma swap_Permutation {A} (l : list A) i j a b :
  i < j -> l !! i = Some a -> l !! j = Some b ->
  <[j := a]> (<[i := b]> l) ≡ₚ l.
Proof.
  revert i j. induction l as [|x l IH]; intros i j Hij Hi Hj.
  - discriminate.
  - destruct j as [|j]; [lia|]. destruct i as [|i]; simpl in *.
    + injection Hi as ->. symmetry. apply insert_cons_Permutation, Hj.
    + f_equiv. apply IH; [lia|assumption..].
Qed.

Lemma swap_if_less_length i j es : length (swap_if_less i j es) = length es.
Proof.
  unfold swap_if_less.
  destruct (es !! i), (es !! j); try reflexivity.
  case_decide; [|reflexivity]. by rewrite !length_insert.
Qed.

Lemma swap_if_less_Permutation i j es : i < j -> swap_if_less i j es ≡ₚ es.
Proof.
  intros Hij. unfold swap_if_less.
  destruct (es !! i) eqn:Hi, (es !! j) eqn:Hj; try reflexivity.
  case_decide; [|reflexivity]. by apply swap_Permutation.
Qed.

Lemma swap_if_less_other i j k es :
  k <> i -> k <> j -> swap_if_less i j es !! k = es !! k.
Proof.
  intros Hi Hj. unfold swap_if_less.
  destruct (es !! i), (es !! j); try reflexivity.
  case_decide; [|reflexivity].
  rewrite !list_lookup_insert_ne by congruence. reflexivity.
Qed.

Lemma swap_if_less_dominates i j es :
  i < j -> j < length es ->
  dominates es i j -> dominates (swap_if_less i j es) i (S j).
Proof.
  intros Hij Hj Hdom k x y Hk Hx Hy.
  destruct (lookup_lt_is_Some_2 es i ltac:(lia)) as [a Ha].
  destruct (lookup_lt_is_Some_2 es j Hj) as [b Hb].
  unfold swap_if_less in Hx, Hy. rewrite Ha, Hb in Hx, Hy.
  case_decide as Hlt.
  - rewrite list_lookup_insert_ne in Hx by lia.
    rewrite list_lookup_insert_eq in Hx by lia. injection Hx as <-.
    destruct (decide (k = j)) as [->|Hne].
    + rewrite list_lookup_insert_eq in Hy by (rewrite length_insert; lia).
      injection Hy as <-. unfold below. lia.
    + rewrite !list_lookup_insert_ne in Hy by lia.
      assert (below a y) by (apply (Hdom k); [lia|assumption..]).
      unfold below in *. lia.
  - rewrite Ha in Hx. injection Hx as <-.
    destruct (decide (k = j)) as [->|Hne].
    + rewrite Hb in Hy. injection Hy as <-. unfold below. lia.
    + apply (Hdom k); [lia|assumption..].
Qed.

Lemma inner_loop_spec n : forall i j es,
  i < j -> j + n = length es ->
  length (inner_loop n i j es) = length es /\
  inner_loop n i j es ≡ₚ es /\
  (forall k, k < i -> inner_loop n i j es !! k = es !! k) /\
  (dominates es i j -> dominates (inner_loop n i j es) i (length es)).
Proof.
  induction n as [|n IH]; intros i j es Hij Hlen; simpl.
  - replace (length es) with j by lia. split_and!; auto.
  - destruct (IH i (S j) (swap_if_less i j es)) as (Hl & Hp & Hpre & Hdom).
    { lia. } { rewrite swap_if_less_length. lia. }
    rewrite swap_if_less_length in *. split_and!.
    + assumption.
    + rewrite Hp. by apply swap_if_less_Permutation.
    + intros k Hk. rewrite Hpre by assumption.
      apply swap_if_less_other; lia.
    + intros Hd. apply Hdom, swap_if_less_dominates; [lia..|assumption].
Qed.

Lemma outer_step i es :
  i < length es -> sorted_upto es i ->
  sorted_upto (inner_loop (length es - (i + 1)) i (i + 1) es) (S i).
Proof.
  intros Hi Hs.
  destruct (inner_loop_spec (length es - (i + 1)) i (i + 1) es)
    as (Hl & Hp & Hpre & Hdom); [lia..|].
  set (res := inner_loop _ _ _ _) in *.
  assert (Htake : take i res = take i es).
  { apply list_eq. intros k. rewrite !lookup_take.
    case_decide; [by apply Hpre|reflexivity]. }
  assert (Hdrop : drop i res ≡ₚ drop i es).
  { apply (Permutation_app_inv_l (take i es)).
    rewrite <- Htake at 1. by rewrite !take_drop. }
  intros k m x y Hk Hkm Hx Hy.
  destruct (decide (k = i)) as [->|Hne].
  - apply (Hdom ltac:(intros ????; lia) m); [|assumption..].
    split; [lia|]. rewrite <- Hl. eapply lookup_lt_Some; eassumption.
  - rewrite Hpre in Hx by lia.
    destruct (decide (m < i)) as [Hm|Hm].
    + rewrite Hpre in Hy by lia. apply (Hs k m); [lia..|assumption|assumption].
    + assert (Hin : y ∈ drop i es).
      { rewrite <- Hdrop. apply list_elem_of_lookup. exists (m - i).
        rewrite lookup_drop. by replace (i + (m - i)) with m by lia. }
      apply list_elem_of_lookup in Hin as [m' Hm'].
      rewrite lookup_drop in Hm'.
      apply (Hs k (i + m')); [lia..|assumption|assumption].
Qed.

Lemma outer_loop_spec n : forall i es,
  n + i = length es - 1 -> sorted_upto es i ->
  length (outer_loop n i es) = length es /\
  outer_loop n i es ≡ₚ es /\
  sorted_upto (outer_loop n i es) (length es - 1).
Proof.
  induction n as [|n IH]; intros i es Hn Hs; simpl.
  - split_and!; auto. by replace (length es - 1) with i by lia.
  - destruct (inner_loop_spec (length es - (i + 1)) i (i + 1) es)
      as (Hl & Hp & _); [lia..|].
    destruct (IH (S i) (inner_loop (length es - (i + 1)) i (i + 1) es))
      as (Hl' & Hp' & Hs').
    { rewrite Hl. lia. } { apply outer_step; [lia|assumption]. }
    rewrite Hl in *. split_and!; [assumption| |assumption].
    by rewrite Hp'.
Qed.

Lemma sort_entries_length es : length (sort_entries es) = length es.
Proof.
  unfold sort_entries.
  destruct (outer_loop_spec (length es - 1) 0 es) as (H & _); [lia| |done].
  intros ????; lia.
Qed.

Lemma sort_entries_Permutation es : sort_entries es ≡ₚ es.
Proof.
  unfold sort_entries.
  destruct (outer_loop_spec (length es - 1) 0 es) as (_ & H & _); [lia| |done].
  intros ????; lia.
Qed.

Lemma sort_entries_pairwise es k m x y :
  k < m -> sort_entries es !! k = Some x -> sort_entries es !! m = Some y ->
  below x y.
Proof.
  intros Hkm Hx Hy.
  destruct (outer_loop_spec (length es - 1) 0 es) as (_ & _ & H); [lia| |].
  { intros ????; lia. }
  apply (H k m); try assumption.
  apply lookup_lt_Some in Hy. rewrite sort_entries_length in Hy. lia.
Qed.

Lemma pairwise_StronglySorted {A} (R : A -> A -> Prop) (l : list A) :
  (forall k m x y, k < m -> l !! k = Some x -> l !! m = Some y -> R x y) ->
  StronglySorted R l.
Proof.
  induction l as [|a l IH]; intros H; constructor.
  - apply IH. intros k m x y Hkm Hx Hy. apply (H (S k) (S m)); [lia|done..].
  - apply Forall_lookup. intros m y Hy. apply (H 0 (S m)); [lia|done..].
Qed.

Lemma sort_entries_StronglySorted es : StronglySorted below (sort_entries es).
Proof.
  apply pairwise_StronglySorted. intros k m x y. apply sort_entries_pairwise.
Qed.

End exchange_sort.

(** ** The leaderboard *)

Lemma collect_entries_pairs (ps : gmap string User) (l : list (string * User)) :
  Forall (fun kv => ps !! kv.1 = Some kv.2) l ->
  entry_key <$> collect_entries ps l.*1 = user_key <$> l.*2.
Proof.
  induction 1 as [|[k u] l Hk _ IH]; [reflexivity|].
  unfold collect_entries in *. rewrite !fmap_cons. cbn [omap list_omap fst snd].
  cbn [fst snd] in Hk. rewrite Hk. cbn [fmap option_fmap option_map].
  rewrite fmap_cons. f_equal. exact IH.
Qed.

Lemma collect_entries_keys (ps : gmap string User) (order : list string) :
  range_of ps order ->
  entry_key <$> collect_entries ps order ≡ₚ user_key <$> (map_to_list ps).*2.
Proof.
  unfold range_of. intros Hp.
  unfold collect_entries. rewrite Hp.
  fold (collect_entries ps (map_to_list ps).*1).
  rewrite collect_entries_pairs; [reflexivity|].
  apply Forall_forall. intros [k u] Hin. by apply elem_of_map_to_list in Hin.
Qed.

Lemma add_positions_keys (es : list LeaderboardEntry) :
  entry_key <$> add_positions es = entry_key <$> es.
Proof.
  apply list_eq. intros i. unfold add_positions.
  rewrite !list_lookup_fmap, list_lookup_imap.
  by destruct (es !! i).
Qed.

Lemma add_positions_lookup (es : list LeaderboardEntry) (i : nat) e :
  add_positions es !! i = Some e ->
  exists e0, es !! i = Some e0 /\ e_Score e = e_Score e0 /\
             e_Position e = Z.of_nat i + 1.
Proof.
  unfold add_positions. rewrite list_lookup_imap.
  destruct (es !! i) as [e0|]; [|discriminate].
  simpl. intros [= <-]. by exists e0.
Qed.

Lemma Quiz_GetLeaderboard_sorted (q : Quiz) (order : list string) i j x y :
  (i < j)%nat ->
  Quiz_GetLeaderboard q order !! i = Some x ->
  Quiz_GetLeaderboard q order !! j = Some y ->
  e_Score y <= e_Score x.
Proof.
  unfold Quiz_GetLeaderboard. intros Hij Hx Hy.
  apply add_positions_lookup in Hx as (x0 & Hx & -> & _).
  apply add_positions_lookup in Hy as (y0 & Hy & -> & _).
  exact (sort_entries_pairwise _ i j x0 y0 Hij Hx Hy).
Qed.

Lemma Quiz_GetLeaderboard_keys (q : Quiz) (order : list string) :
  range_of (z_Participants q) order ->
  entry_key <$> Quiz_GetLeaderboard q order
    ≡ₚ user_key <$> (map_to_list (z_Participants q)).*2.
Proof.
  intros Hr. unfold Quiz_GetLeaderboard.
  rewrite add_positions_keys, sort_entries_Permutation.
  by apply collect_entries_keys.
Qed.

Lemma Quiz_GetLeaderboard_positions (q : Quiz) (order : list string) :
  e_Position <$> Quiz_GetLeaderboard q order
  = (fun i => Z.of_nat i + 1) <$> seq 0 (length (Quiz_GetLeaderboard q order)).
Proof.
  unfold Quiz_GetLeaderboard.
  set (es := sort_entries _).
  apply list_eq. intros i.
  rewrite !list_lookup_fmap. unfold add_positions at 1.
  rewrite list_lookup_imap.
  destruct (es !! i) as [e|] eqn:He; simpl.
  - rewrite lookup_seq_lt; [reflexivity|].
    unfold add_positions. rewrite length_imap.
    eapply lookup_lt_Some; eassumption.
  - rewrite lookup_seq_ge; [reflexivity|].
    unfold add_positions. rewrite length_imap.
    by apply lookup_ge_None.
Qed.

(** C5. For a quiz the service finds, whatever the order in which the
    participants are visited, [GetLeaderboard] returns a sequence that is
    sorted by score in descending order, has exactly one entry per
    participant (its id, name and score), and whose positions are
    1, 2, ..., N in that order. *)
Theorem GetLeaderboard_sorted_ranked
    (qs qs1 : QuizService) (quizID : string) (quiz : Quiz)
    (order : list string) :
  GetQuiz qs quizID = (Ok quiz, qs1) ->
  range_of (z_Participants quiz) order ->
  exists lb qs',
    GetLeaderboard qs quizID order = (Ok lb, qs') /\
    lb = Quiz_GetLeaderboard quiz order /\
    ranked_leaderboard (z_Participants quiz) lb.
Proof.
  intros Hget Hr. unfold GetLeaderboard. rewrite Hget.
  destruct (SaveLeaderboard _ _ _) as [err rs].
  eexists _, _. split; [reflexivity|]. split; [reflexivity|].
  unfold ranked_leaderboard. split_and!.
  - intros i j x y. apply Quiz_GetLeaderboard_sorted.
  - by apply Quiz_GetLeaderboard_keys.
  - pose proof (Quiz_GetLeaderboard_keys quiz order Hr) as Hk.
    apply Permutation_length in Hk.
    rewrite !length_fmap, length_map_to_list in Hk. exact Hk.
  - apply Quiz_GetLeaderboard_positions.
Qed.

Lemma GetLeaderboard_sorted_ranked_witness :
  exists lb qs',
    GetLeaderboard local_service "geo" ["u2"; "u1"] = (Ok lb, qs') /\
    lb = Quiz_GetLeaderboard geo ["u2"; "u1"] /\
    ranked_leaderboard (z_Participants geo) lb.
Proof.
  apply (GetLeaderboard_sorted_ranked local_service local_service "geo" geo).
  - reflexivity.
  - unfold range_of. vm_compute. apply perm_swap || reflexivity.
Defined.

(** ** Determinism of the leaderboard *)

#[local] Instance flip_le_anti_symm : AntiSymm (=) (flip Z.le).
Proof. intros x y. unfold flip. lia. Qed.

Lemma scores_StronglySorted (q : Quiz) (order : list string) :
  StronglySorted (flip Z.le) (e_Score <$> Quiz_GetLeaderboard q order).
Proof.
  apply pairwise_StronglySorted. intros k m x y Hkm.
  rewrite !list_lookup_fmap.
  destruct (Quiz_GetLeaderboard q order !! k) as [ex|] eqn:Hx; [|discriminate].
  destruct (Quiz_GetLeaderboard q order !! m) as [ey|] eqn:Hy; [|discriminate].
  simpl. intros [= <-] [= <-]. unfold flip.
  exact (Quiz_GetLeaderboard_sorted q order k m ex ey Hkm Hx Hy).
Qed.

Lemma scores_of_keys (es : list LeaderboardEntry) :
  e_Score <$> es = snd <$> (entry_key <$> es).
Proof. rewrite <- list_fmap_compose. reflexivity. Qed.

(** C6, the claim as stated fails: Alice and Carol are tied; visited in
    the order u1, u3 Alice is first, visited in the order u3, u1 Carol
    is first, although Alice joined earlier.  Both orders are orders in
    which the runtime may visit the participants, and the state is the
    same in the two calls. *)
Lemma GetLeaderboard_ties_follow_range_order :
  range_of (z_Participants tied) ["u1"; "u3"] /\
  range_of (z_Participants tied) ["u3"; "u1"] /\
  u_Score alice = u_Score carol /\ u_JoinedAt alice < u_JoinedAt carol /\
  e_UserID <$> Quiz_GetLeaderboard tied ["u1"; "u3"] = ["u1"; "u3"] /\
  e_UserID <$> Quiz_GetLeaderboard tied ["u3"; "u1"] = ["u3"; "u1"] /\
  fst (GetLeaderboard tied_service "tied" ["u1"; "u3"])
    <> fst (GetLeaderboard tied_service "tied" ["u3"; "u1"]) /\
  snd (GetLeaderboard tied_service "tied" ["u1"; "u3"]) = tied_service.
Proof.
  split_and!.
  - unfold range_of. vm_compute. apply perm_swap || reflexivity.
  - unfold range_of. vm_compute. apply perm_swap || reflexivity.
  - reflexivity.
  - reflexivity.
  - vm_compute. reflexivity.
  - vm_compute. reflexivity.
  - vm_compute. intros H. discriminate H.
  - reflexivity.
Qed.

(** C6, amended.  For one state of the quiz and any two orders in which
    the participants may be visited, the two leaderboards list the same
    participants, with the same sequence of scores and the same
    sequence of positions; for the same order of visit they are equal.
    How participants of equal score follow each other is left to the
    order of visit. *)
Theorem GetLeaderboard_scores_deterministic
    (q : Quiz) (order1 order2 : list string) :
  range_of (z_Participants q) order1 ->
  range_of (z_Participants q) order2 ->
  entry_key <$> Quiz_GetLeaderboard q order1
    ≡ₚ entry_key <$> Quiz_GetLeaderboard q order2 /\
  e_Score <$> Quiz_GetLeaderboard q order1
    = e_Score <$> Quiz_GetLeaderboard q order2 /\
  e_Position <$> Quiz_GetLeaderboard q order1
    = e_Position <$> Quiz_GetLeaderboard q order2 /\
  (order1 = order2 ->
   Quiz_GetLeaderboard q order1 = Quiz_GetLeaderboard q order2).
Proof.
  intros H1 H2.
  assert (Hk : entry_key <$> Quiz_GetLeaderboard q order1
                 ≡ₚ entry_key <$> Quiz_GetLeaderboard q order2).
  { rewrite !Quiz_GetLeaderboard_keys by assumption. reflexivity. }
  split_and!.
  - exact Hk.
  - apply (StronglySorted_unique (flip Z.le)).
    + apply scores_StronglySorted.
    + apply scores_StronglySorted.
    + rewrite !scores_of_keys. by rewrite Hk.
  - rewrite !Quiz_GetLeaderboard_positions.
    apply Permutation_length in Hk. rewrite !length_fmap in Hk.
    by rewrite Hk.
  - by intros ->.
Qed.

Lemma GetLeaderboard_scores_deterministic_witness :
  entry_key <$> Quiz_GetLeaderboard tied ["u1"; "u3"]
    ≡ₚ entry_key <$> Quiz_GetLeaderboard tied ["u3"; "u1"] /\
  e_Score <$> Quiz_GetLeaderboard tied ["u1"; "u3"]
    = e_Score <$> Quiz_GetLeaderboard tied ["u3"; "u1"] /\
  e_Position <$> Quiz_GetLeaderboard tied ["u1"; "u3"]
    = e_Position <$> Quiz_GetLeaderboard tied ["u3"; "u1"] /\
  (["u1"; "u3"] = ["u3"; "u1"] ->
   Quiz_GetLeaderboard tied ["u1"; "u3"] = Quiz_GetLeaderboard tied ["u3"; "u1"]).
Proof.
  apply (GetLeaderboard_scores_deterministic tied ["u1"; "u3"] ["u3"; "u1"]).
  - unfold range_of. vm_compute. apply perm_swap || reflexivity.
  - unfold range_of. vm_compute. apply perm_swap || reflexivity.
Defined.

(** ** The broadcast hub *)

Section hub.

Context (quizID : string) (data : WebSocketMessage).

Implicit Types (cs : gmap positive Client) (order rm : list positive).

Lemma range_of_NoDup `{Countable K} {A} (m : gmap K A) (order : list K) :
  range_of m order -> NoDup order.
Proof.
  unfold range_of. intros ->. apply NoDup_fst_map_to_list.
Qed.

Lemma range_of_elem_of `{Countable K} {A} (m : gmap K A) (order : list K) k :
  range_of m order -> k ∈ order <-> is_Some (m !! k).
Proof.
  unfold range_of. intros ->. rewrite list_elem_of_fmap. split.
  - intros ([k' x] & -> & Hin). apply elem_of_map_to_list in Hin. by exists x.
  - intros [x Hx]. exists (k, x). split; [done|]. by apply elem_of_map_to_list.
Qed.

Lemma fan_out_step ptr order cs rm client :
  cs !! ptr = Some client ->
  fan_out quizID data (ptr :: order) cs rm =
  fan_out quizID data order (<[ptr := sent quizID data client]> cs)
    (if decide (dead quizID data client) then rm ++ [ptr] else rm).
Proof.
  intros Hc. simpl. rewrite Hc. unfold sent, dead.
  destruct (decide (c_QuizID client = quizID)) as [Hq|Hq].
  - destruct (try_send data client) as [client'|] eqn:Hs; simpl.
    + rewrite decide_False by (intros [_ ?]; discriminate). reflexivity.
    + rewrite decide_True by done. by rewrite insert_id.
  - rewrite decide_False by (intros [? _]; done). by rewrite insert_id.
Qed.

Lemma fan_out_spec order : forall cs rm cs1 rm1,
  NoDup order ->
  fan_out quizID data order cs rm = (cs1, rm1) ->
  (forall p, cs1 !! p = if decide (p ∈ order)
                        then sent quizID data <$> cs !! p else cs !! p) /\
  (forall p, p ∈ rm1 <->
     p ∈ rm \/ (p ∈ order /\ exists c, cs !! p = Some c /\ dead quizID data c)).
Proof.
  induction order as [|ptr order IH]; intros cs rm cs1 rm1 Hnd Hf.
  - simpl in Hf. injection Hf as <- <-. split.
    + intros p. rewrite decide_False by apply not_elem_of_nil. reflexivity.
    + intros p. split; [auto|]. intros [?|[Hin _]]; [done|].
      by apply not_elem_of_nil in Hin.
  - apply NoDup_cons in Hnd as [Hnotin Hnd].
    destruct (cs !! ptr) as [client|] eqn:Hc.
    + rewrite (fan_out_step _ _ _ _ _ Hc) in Hf.
      destruct (IH _ _ _ _ Hnd Hf) as [Hcs Hrm]. split.
      * intros p. rewrite Hcs.
        destruct (decide (p = ptr)) as [->|Hne].
        -- rewrite decide_False by done. rewrite lookup_insert_eq.
           rewrite decide_True by left. by rewrite Hc.
        -- rewrite lookup_insert_ne by done.
           destruct (decide (p ∈ order)) as [Hin|Hin].
           ++ rewrite decide_True by (by right). reflexivity.
           ++ rewrite decide_False; [reflexivity|].
              intros [?|?]%elem_of_cons; done.
      * intros p. rewrite Hrm, elem_of_cons.
        destruct (decide (p = ptr)) as [->|Hne].
        -- rewrite lookup_insert_eq.
           case_decide; rewrite ?elem_of_app, ?list_elem_of_singleton;
             naive_solver.
        -- rewrite lookup_insert_ne by done.
           case_decide; rewrite ?elem_of_app, ?list_elem_of_singleton;
             naive_solver.
    + simpl in Hf. rewrite Hc in Hf.
      destruct (IH _ _ _ _ Hnd Hf) as [Hcs Hrm]. split.
      * intros p. rewrite Hcs.
        destruct (decide (p = ptr)) as [->|Hne].
        -- rewrite decide_False by done. rewrite decide_True by left.
           by rewrite Hc.
        -- destruct (decide (p ∈ order)) as [Hin|Hin].
           ++ rewrite decide_True by (by right). reflexivity.
           ++ rewrite decide_False; [reflexivity|].
              intros [?|?]%elem_of_cons; done.
      * intros p. rewrite Hrm, elem_of_cons.
        destruct (decide (p = ptr)) as [->|Hne]; naive_solver.
Qed.

Lemma remove_dead_lookup rm : forall cs p,
  remove_dead rm cs !! p = if decide (p ∈ rm) then None else cs !! p.
Proof.
  induction rm as [|ptr rm IH]; intros cs p; cbn [remove_dead].
  - destruct (decide (p ∈ [])) as [Hin|]; [|reflexivity].
    by apply not_elem_of_nil in Hin.
  - assert (Hd : remove_dead rm (delete ptr cs) !! p =
                 if decide (p ∈ ptr :: rm) then None else cs !! p).
    { rewrite IH. destruct (decide (p ∈ rm)) as [Hin|Hin].
      - rewrite decide_True by (by right). reflexivity.
      - destruct (decide (p = ptr)) as [->|Hne].
        + rewrite decide_True by left. apply lookup_delete_eq.
        + rewrite decide_False by (intros [?|?]%elem_of_cons; done).
          by apply lookup_delete_ne. }
    destruct (cs !! ptr) eqn:Hc; [exact Hd|].
    rewrite <- Hd. by rewrite delete_id.
Qed.

(** The local delivery, client by client. *)
Lemma deliver_local_lookup order cs p :
  range_of cs order ->
  deliver_local quizID data order cs !! p = cs !! p ≫= delivered quizID data.
Proof.
  intros Hr. unfold deliver_local.
  destruct (fan_out quizID data order cs []) as [cs1 rm1] eqn:Hf.
  destruct (fan_out_spec order cs [] cs1 rm1 (range_of_NoDup _ _ Hr) Hf)
    as [Hcs Hrm].
  rewrite remove_dead_lookup, Hcs.
  destruct (cs !! p) as [c|] eqn:Hc; simpl.
  - assert (Hpo : p ∈ order).
    { apply (range_of_elem_of cs); [done|]. rewrite Hc. by exists c. }
    destruct (decide (p ∈ order)); [|done].
    simpl. unfold delivered, sent.
    destruct (decide (p ∈ rm1)) as [Hin|Hin].
    + apply Hrm in Hin as [Hin|(_ & c' & Hc' & Hq & Hs)].
      { by apply not_elem_of_nil in Hin. }
      rewrite Hc in Hc'. injection Hc' as <-.
      rewrite decide_True by done. by rewrite Hs.
    + destruct (decide (c_QuizID c = quizID)) as [Hq|Hq]; [|reflexivity].
      destruct (try_send data c) as [c'|] eqn:Hs; [reflexivity|].
      exfalso. apply Hin, Hrm. right. split; [done|].
      exists c. by split.
  - by repeat case_decide.
Qed.

(** The registry after a broadcast is the same for every order in
    which the clients may be visited. *)
Lemma deliver_local_order order1 order2 cs :
  range_of cs order1 -> range_of cs order2 ->
  deliver_local quizID data order1 cs = deliver_local quizID data order2 cs.
Proof.
  intros H1 H2. apply map_eq. intros p.
  by rewrite !deliver_local_lookup.
Qed.

End hub.

(** C4. Whatever the order in which the registry is visited, a
    broadcast for [quizID] puts the event in the queue of every
    registered client of [quizID] whose queue has room, leaves every
    client of another quiz untouched, and removes from the registry every
    client of [quizID] whose queue is full; each client's outcome
    depends on that client alone, so a removal never costs another
    client its delivery.  The quizzes are not touched. *)
Theorem Broadcast_delivery
    (qs : QuizService) (quizID : string) (event : WebSocketMessage)
    (order : list positive) :
  range_of (Clients qs) order ->
  Quizzes (broadcastToQuiz_in order qs quizID event) = Quizzes qs /\
  broadcastToQuiz qs quizID event = broadcastToQuiz_in order qs quizID event /\
  (forall p c, Clients qs !! p = Some c ->
     (c_QuizID c = quizID -> (length (c_Send c) < c_Cap c)%nat ->
        Clients (broadcastToQuiz_in order qs quizID event) !! p
        = Some (enqueue event c)) /\
     (c_QuizID c = quizID -> ~ (length (c_Send c) < c_Cap c)%nat ->
        Clients (broadcastToQuiz_in order qs quizID event) !! p = None) /\
     (c_QuizID c <> quizID ->
        Clients (broadcastToQuiz_in order qs quizID event) !! p = Some c)) /\
  (forall p, Clients qs !! p = None ->
     Clients (broadcastToQuiz_in order qs quizID event) !! p = None).
Proof.
  intros Hr.
  assert (Hcl : forall o, Clients (broadcastToQuiz_in o qs quizID event)
                          = deliver_local quizID event o (Clients qs)).
  { intros o. unfold broadcastToQuiz_in.
    by destruct (PublishMessage _ _ _). }
  split_and!.
  - unfold broadcastToQuiz_in. by destruct (PublishMessage _ _ _).
  - unfold broadcastToQuiz, broadcastToQuiz_in.
    rewrite (deliver_local_order quizID event _ order (Clients qs));
      [reflexivity| |assumption].
    unfold range_of. reflexivity.
  - intros p c Hc. rewrite Hcl, deliver_local_lookup, Hc by assumption.
    simpl. unfold delivered, try_send. split_and!.
    + intros Hq Hlt. by rewrite !decide_True.
    + intros Hq Hlt. rewrite decide_True by done. by rewrite decide_False.
    + intros Hq. by rewrite decide_False.
  - intros p Hc. by rewrite Hcl, deliver_local_lookup, Hc.
Qed.

Lemma Broadcast_delivery_witness :
  Clients (broadcastToQuiz_in [3; 1; 2]%positive hub_service "geo" ping)
  = <[1%positive := mkClient "c1" "geo" "u1" [ping] 256]>
      (<[3%positive := mkClient "c3" "tied" "u3" [] 256]> ∅).
Proof.
  pose proof (Broadcast_delivery hub_service "geo" ping [3; 1; 2]%positive)
    as (_ & _ & H & H0).
  { unfold range_of. vm_compute.
    repeat first [reflexivity | apply perm_skip | apply perm_swap
                 | eapply perm_trans; [apply perm_swap|] ]. }
  apply map_eq. intros p.
  destruct (decide (p = 1%positive)) as [->|H1].
  { destruct (H 1%positive (mkClient "c1" "geo" "u1" [] 256) eq_refl)
      as (Hs & _ & _).
    rewrite Hs; [reflexivity..|]. simpl. lia. }
  destruct (decide (p = 2%positive)) as [->|H2].
  { destruct (H 2%positive (mkClient "c2" "geo" "u2" [ping] 1) eq_refl)
      as (_ & Hs & _).
    rewrite Hs; [reflexivity..|]. simpl. lia. }
  destruct (decide (p = 3%positive)) as [->|H3].
  { destruct (H 3%positive (mkClient "c3" "tied" "u3" [] 256) eq_refl)
      as (_ & _ & Hs).
    rewrite Hs; [reflexivity|]. simpl. discriminate. }
  rewrite H0.
  - by rewrite !lookup_insert_ne, lookup_empty by done.
  - unfold hub_service. simpl.
    by rewrite !lookup_insert_ne, lookup_empty by done.
Defined.

(** ** The Redis client *)

Ltac redis_cases rs :=
  destruct rs as [[? ? ? ? ? [|[] [|[] ?]]]|]; simpl.

Lemma stored_quizzes rs rs' :
  stored rs = stored rs' -> redis_quizzes rs = redis_quizzes rs'.
Proof. destruct rs, rs'; simpl; congruence. Qed.

Lemma stored_published rs rs' :
  stored rs = stored rs' -> redis_published rs = redis_published rs'.
Proof. destruct rs, rs'; simpl; congruence. Qed.

Lemma Redis_GetQuiz_stored rs quizID :
  stored (snd (Redis_GetQuiz rs quizID)) = stored rs.
Proof. redis_cases rs; reflexivity. Qed.

Lemma Redis_GetQuiz_Some rs quizID quiz :
  fst (Redis_GetQuiz rs quizID) = Some quiz ->
  redis_quizzes rs !! quizID = Some quiz.
Proof. redis_cases rs; intros H; (discriminate H || exact H). Qed.

Lemma SaveQuiz_quizzes rs quiz :
  redis_quizzes (snd (SaveQuiz rs quiz)) = redis_quizzes rs \/
  redis_quizzes (snd (SaveQuiz rs quiz)) = <[z_ID quiz := quiz]> (redis_quizzes rs).
Proof. redis_cases rs; auto. Qed.

(** A failed save has written nothing. *)
Lemma SaveQuiz_error_quizzes rs quiz :
  fst (SaveQuiz rs quiz) = true ->
  redis_quizzes (snd (SaveQuiz rs quiz)) = redis_quizzes rs.
Proof. redis_cases rs; intros H; (discriminate H || reflexivity). Qed.

Lemma SaveQuiz_published rs quiz :
  redis_published (snd (SaveQuiz rs quiz)) = redis_published rs.
Proof. redis_cases rs; reflexivity. Qed.

Lemma SaveUser_quizzes rs user :
  redis_quizzes (snd (SaveUser rs user)) = redis_quizzes rs.
Proof. redis_cases rs; reflexivity. Qed.

Lemma SaveUser_published rs user :
  redis_published (snd (SaveUser rs user)) = redis_published rs.
Proof. redis_cases rs; reflexivity. Qed.

Lemma SaveLeaderboard_quizzes rs quizID lb :
  redis_quizzes (snd (SaveLeaderboard rs quizID lb)) = redis_quizzes rs.
Proof. redis_cases rs; reflexivity. Qed.

Lemma SaveLeaderboard_published rs quizID lb :
  redis_published (snd (SaveLeaderboard rs quizID lb)) = redis_published rs.
Proof. redis_cases rs; reflexivity. Qed.

Lemma PublishMessage_quizzes rs channel message :
  redis_quizzes (snd (PublishMessage rs channel message)) = redis_quizzes rs.
Proof. redis_cases rs; reflexivity. Qed.

(** ** GetQuiz and the broadcasts *)

Lemma GetQuiz_hit qs quizID quiz :
  Quizzes qs !! quizID = Some quiz -> GetQuiz qs quizID = (Ok quiz, qs).
Proof. intros H. unfold GetQuiz. by rewrite H. Qed.

(** The three outcomes of [GetQuiz]. *)
Lemma GetQuiz_spec qs quizID :
  (exists quiz, Quizzes qs !! quizID = Some quiz /\
                GetQuiz qs quizID = (Ok quiz, qs)) \/
  (Quizzes qs !! quizID = None /\
   exists rs, stored rs = stored (Redis qs) /\
     (GetQuiz qs quizID = (Err (ErrQuizNotFound quizID), set_Redis qs rs) \/
      exists quiz, redis_quizzes (Redis qs) !! quizID = Some quiz /\
        GetQuiz qs quizID
        = (Ok quiz, mkService (<[quizID := quiz]> (Quizzes qs)) (Clients qs) rs))).
Proof.
  unfold GetQuiz. destruct (Quizzes qs !! quizID) as [quiz|] eqn:Hq.
  - left. by exists quiz.
  - right. split; [reflexivity|].
    pose proof (Redis_GetQuiz_stored (Redis qs) quizID) as Hst.
    pose proof (Redis_GetQuiz_Some (Redis qs) quizID) as Hsome.
    destruct (Redis_GetQuiz (Redis qs) quizID) as [[quiz|] rs]; simpl in *.
    + exists rs. split; [done|]. right. exists quiz. split; [by apply Hsome|done].
    + exists rs. split; [done|]. by left.
Qed.

Lemma GetQuiz_Ok_lookup qs quizID quiz qs1 :
  GetQuiz qs quizID = (Ok quiz, qs1) -> Quizzes qs1 !! quizID = Some quiz.
Proof.
  destruct (GetQuiz_spec qs quizID) as [(q & Hq & ->)|(Hq & rs & _ & [->|(q & _ & ->)])];
    intros [= <- <-]; simpl; [done|]. apply lookup_insert_eq.
Qed.

Lemma GetQuiz_Err qs quizID e qs1 :
  GetQuiz qs quizID = (Err e, qs1) -> e = ErrQuizNotFound quizID.
Proof.
  destruct (GetQuiz_spec qs quizID) as [(q & Hq & ->)|(Hq & rs & _ & [->|(q & _ & ->)])];
    by intros [= <- <-].
Qed.

Lemma GetQuiz_Clients qs quizID : Clients (snd (GetQuiz qs quizID)) = Clients qs.
Proof.
  by destruct (GetQuiz_spec qs quizID)
    as [(q & Hq & ->)|(Hq & rs & _ & [->|(q & _ & ->)])].
Qed.

Lemma GetQuiz_stored qs quizID :
  stored (Redis (snd (GetQuiz qs quizID))) = stored (Redis qs).
Proof.
  by destruct (GetQuiz_spec qs quizID)
    as [(q & Hq & ->)|(Hq & rs & ? & [->|(q & _ & ->)])].
Qed.

(** A quiz in memory is not touched by [GetQuiz]. *)
Lemma GetQuiz_keeps qs quizID id q :
  Quizzes qs !! id = Some q -> Quizzes (snd (GetQuiz qs quizID)) !! id = Some q.
Proof.
  intros Hid.
  destruct (GetQuiz_spec qs quizID)
    as [(q' & Hq & ->)|(Hq & rs & ? & [->|(q' & _ & ->)])]; simpl; [done..|].
  rewrite lookup_insert_ne; [done|]. intros ->. congruence.
Qed.

Lemma GetQuiz_known qs quizID id :
  known_quiz (snd (GetQuiz qs quizID)) id = known_quiz qs id.
Proof.
  unfold known_quiz.
  destruct (GetQuiz_spec qs quizID)
    as [(q' & Hq & ->)|(Hq & rs & Hst & [->|(q' & Hr & ->)])]; simpl; [done| |].
  - by rewrite (stored_quizzes _ _ Hst).
  - rewrite (stored_quizzes _ _ Hst).
    destruct (decide (id = quizID)) as [->|Hne].
    + by rewrite lookup_insert_eq, Hq, Hr.
    + by rewrite lookup_insert_ne.
Qed.

Lemma broadcastToQuiz_Quizzes qs quizID message :
  Quizzes (broadcastToQuiz qs quizID message) = Quizzes qs.
Proof.
  unfold broadcastToQuiz, broadcastToQuiz_in.
  by destruct (PublishMessage _ _ _).
Qed.

Lemma broadcastToQuiz_quizzes qs quizID message :
  redis_quizzes (Redis (broadcastToQuiz qs quizID message))
  = redis_quizzes (Redis qs).
Proof.
  unfold broadcastToQuiz, broadcastToQuiz_in.
  pose proof (PublishMessage_quizzes (Redis qs) ("quiz:" +:+ quizID) message).
  by destruct (PublishMessage _ _ _).
Qed.

(** ** Invariants of the quizzes *)

Section quiz_invariant.

Variable I : Quiz -> Prop.

Hypothesis I_create : forall title quizID now,
  I (mkQuiz quizID title getSampleQuestions ∅ QuizStatusWaiting now None None).

Hypothesis I_join : forall q userID userName now,
  I q -> I (AddParticipant q (mkUser userID userName 0 [] now)).

Hypothesis I_submit : forall q userID user questionID question answer now,
  I q -> z_Participants q !! userID = Some user ->
  HasAnswered user questionID = false ->
  find_question (z_Questions q) questionID = Some question ->
  I (with_user q userID (AddAnswer user (grade question questionID answer now))).

Hypothesis I_status : forall q st started ended,
  I q -> I (set_Status q st started ended).

Lemma all_quizzes_GetQuiz qs quizID :
  all_quizzes I qs -> all_quizzes I (snd (GetQuiz qs quizID)).
Proof.
  intros [Hm Hr]. unfold all_quizzes.
  destruct (GetQuiz_spec qs quizID)
    as [(q' & Hq & ->)|(Hq & rs & Hst & [->|(q' & Hq' & ->)])]; simpl;
    rewrite ?(stored_quizzes _ _ Hst); split; try done.
  intros id q. destruct (decide (id = quizID)) as [->|Hne].
  - rewrite lookup_insert_eq. intros [= <-]. by apply (Hr quizID).
  - rewrite lookup_insert_ne by done. apply Hm.
Qed.

Lemma all_quizzes_GetQuiz_Ok qs quizID quiz qs1 :
  all_quizzes I qs -> GetQuiz qs quizID = (Ok quiz, qs1) ->
  all_quizzes I qs1 /\ I quiz.
Proof.
  intros Hall Hget.
  pose proof (all_quizzes_GetQuiz qs quizID Hall) as H.
  rewrite Hget in H. split; [exact H|].
  apply GetQuiz_Ok_lookup in Hget. destruct H as [Hm _]. by apply (Hm quizID).
Qed.

Lemma all_quizzes_insert qs quizID quiz :
  all_quizzes I qs -> I quiz ->
  all_quizzes I (set_Quizzes qs (<[quizID := quiz]> (Quizzes qs))).
Proof.
  intros [Hm Hr] HI. split; [|exact Hr]. simpl.
  intros id q. destruct (decide (id = quizID)) as [->|Hne].
  - rewrite lookup_insert_eq. by intros [= <-].
  - rewrite lookup_insert_ne by done. apply Hm.
Qed.

Lemma all_quizzes_Redis qs rs :
  all_quizzes I qs -> redis_quizzes rs = redis_quizzes (Redis qs) ->
  all_quizzes I (set_Redis qs rs).
Proof. intros [Hm Hr] Heq. split; [exact Hm|]. simpl. by rewrite Heq. Qed.

Lemma all_quizzes_SaveQuiz qs quiz err rs :
  all_quizzes I qs -> I quiz -> SaveQuiz (Redis qs) quiz = (err, rs) ->
  all_quizzes I (set_Redis qs rs).
Proof.
  intros [Hm Hr] HI Hs. split; [exact Hm|]. simpl.
  pose proof (SaveQuiz_quizzes (Redis qs) quiz) as H. rewrite Hs in H.
  simpl in H. destruct H as [->| ->]; [exact Hr|].
  intros id q. destruct (decide (id = z_ID quiz)) as [->|Hne].
  - rewrite lookup_insert_eq. by intros [= <-].
  - rewrite lookup_insert_ne by done. apply Hr.
Qed.

Lemma all_quizzes_broadcastToQuiz qs quizID message :
  all_quizzes I qs -> all_quizzes I (broadcastToQuiz qs quizID message).
Proof.
  intros [Hm Hr]. split.
  - by rewrite broadcastToQuiz_Quizzes.
  - by rewrite broadcastToQuiz_quizzes.
Qed.

Lemma all_quizzes_GetLeaderboard qs quizID order :
  all_quizzes I qs -> all_quizzes I (snd (GetLeaderboard qs quizID order)).
Proof.
  intros Hall. unfold GetLeaderboard.
  pose proof (all_quizzes_GetQuiz qs quizID Hall) as H.
  destruct (GetQuiz qs quizID) as [[quiz|e] qs1]; simpl in *; [|exact H].
  pose proof (SaveLeaderboard_quizzes (Redis qs1) quizID
                (Quiz_GetLeaderboard quiz order)) as Hs.
  destruct (SaveLeaderboard _ _ _) as [err rs]. simpl in *.
  by apply all_quizzes_Redis.
Qed.

Lemma all_quizzes_broadcastLeaderboard qs quizID order :
  all_quizzes I qs -> all_quizzes I (broadcastLeaderboard qs quizID order).
Proof.
  intros Hall. unfold broadcastLeaderboard.
  pose proof (all_quizzes_GetLeaderboard qs quizID order Hall) as H.
  destruct (GetLeaderboard qs quizID order) as [[lb|e] qs1]; simpl in *;
    [|exact H].
  by apply all_quizzes_broadcastToQuiz.
Qed.

(** The operations of the service. *)
Lemma all_quizzes_CreateQuiz qs title quizID now :
  all_quizzes I qs -> all_quizzes I (snd (CreateQuiz qs title quizID now)).
Proof.
  intros Hall. unfold CreateQuiz.
  destruct (SaveQuiz _ _) as [err rs] eqn:Hs.
  pose proof (all_quizzes_SaveQuiz qs _ err rs Hall
                (I_create title quizID now) Hs) as H.
  destruct err; simpl; [exact H|].
  exact (all_quizzes_insert (set_Redis qs rs) quizID _ H
           (I_create title quizID now)).
Qed.

Lemma all_quizzes_JoinQuiz qs quizID userName userID now order :
  all_quizzes I qs ->
  all_quizzes I (snd (JoinQuiz qs quizID userName userID now order)).
Proof.
  intros Hall. unfold JoinQuiz.
  destruct (GetQuiz qs quizID) as [[quiz|e] qs1] eqn:Hget; simpl.
  2:{ pose proof (all_quizzes_GetQuiz qs quizID Hall) as H.
      by rewrite Hget in H. }
  destruct (all_quizzes_GetQuiz_Ok _ _ _ _ Hall Hget) as [H1 Hq].
  pose proof (I_join quiz userID userName now Hq) as Hq'.
  pose proof (all_quizzes_insert qs1 quizID _ H1 Hq') as H2.
  destruct (SaveQuiz _ _) as [e3 rs3] eqn:Hs3.
  pose proof (all_quizzes_SaveQuiz _ _ _ _ H2 Hq' Hs3) as H3.
  pose proof (SaveUser_quizzes rs3 (mkUser userID userName 0 [] now)) as Hu.
  destruct (SaveUser _ _) as [e4 rs4]. simpl in *.
  apply all_quizzes_broadcastLeaderboard, all_quizzes_broadcastToQuiz.
  by apply (all_quizzes_Redis _ rs4) in H3.
Qed.

Lemma all_quizzes_SubmitAnswer qs quizID userID questionID answer now order :
  all_quizzes I qs ->
  all_quizzes I
    (snd (SubmitAnswer qs quizID userID questionID answer now order)).
Proof.
  intros Hall. unfold SubmitAnswer.
  destruct (GetQuiz qs quizID) as [[quiz|e] qs1] eqn:Hget; simpl.
  2:{ pose proof (all_quizzes_GetQuiz qs quizID Hall) as H.
      by rewrite Hget in H. }
  destruct (all_quizzes_GetQuiz_Ok _ _ _ _ Hall Hget) as [H1 Hq].
  destruct (z_Participants quiz !! userID) as [user|] eqn:Hu; [|exact H1].
  destruct (HasAnswered user questionID) eqn:Hans; [exact H1|].
  destruct (find_question _ _) as [question|] eqn:Hfind; [|exact H1].
  pose proof (I_submit quiz userID user questionID question answer now
                Hq Hu Hans Hfind) as Hq'.
  unfold with_user in Hq'.
  pose proof (all_quizzes_insert qs1 quizID _ H1 Hq') as H2.
  destruct (SaveQuiz _ _) as [e3 rs3] eqn:Hs3.
  pose proof (all_quizzes_SaveQuiz _ _ _ _ H2 Hq' Hs3) as H3.
  pose proof (SaveUser_quizzes rs3
                (AddAnswer user (grade question questionID answer now))) as Hsu.
  destruct (SaveUser _ _) as [e4 rs4]. simpl in *.
  apply all_quizzes_broadcastLeaderboard, all_quizzes_broadcastToQuiz.
  by apply (all_quizzes_Redis _ rs4) in H3.
Qed.

Lemma all_quizzes_StartQuiz qs quizID now :
  all_quizzes I qs -> all_quizzes I (snd (StartQuiz qs quizID now)).
Proof.
  intros Hall. unfold StartQuiz.
  destruct (GetQuiz qs quizID) as [[quiz|e] qs1] eqn:Hget; simpl.
  2:{ pose proof (all_quizzes_GetQuiz qs quizID Hall) as H.
      by rewrite Hget in H. }
  destruct (all_quizzes_GetQuiz_Ok _ _ _ _ Hall Hget) as [H1 Hq].
  case_decide; [exact H1|].
  pose proof (I_status quiz QuizStatusActive (Some now) (z_EndedAt quiz) Hq)
    as Hq'.
  pose proof (all_quizzes_insert qs1 quizID _ H1 Hq') as H2.
  destruct (SaveQuiz _ _) as [e3 rs3] eqn:Hs3.
  pose proof (all_quizzes_SaveQuiz _ _ _ _ H2 Hq' Hs3) as H3.
  by apply all_quizzes_broadcastToQuiz.
Qed.

Lemma all_quizzes_EndQuiz qs quizID now :
  all_quizzes I qs -> all_quizzes I (snd (EndQuiz qs quizID now)).
Proof.
  intros Hall. unfold EndQuiz.
  destruct (GetQuiz qs quizID) as [[quiz|e] qs1] eqn:Hget; simpl.
  2:{ pose proof (all_quizzes_GetQuiz qs quizID Hall) as H.
      by rewrite Hget in H. }
  destruct (all_quizzes_GetQuiz_Ok _ _ _ _ Hall Hget) as [H1 Hq].
  pose proof (I_status quiz QuizStatusEnded (z_StartedAt quiz) (Some now) Hq)
    as Hq'.
  pose proof (all_quizzes_insert qs1 quizID _ H1 Hq') as H2.
  destruct (SaveQuiz _ _) as [e3 rs3] eqn:Hs3.
  pose proof (all_quizzes_SaveQuiz _ _ _ _ H2 Hq' Hs3) as H3.
  by apply all_quizzes_broadcastToQuiz.
Qed.

Lemma all_quizzes_run qs op : all_quizzes I qs -> all_quizzes I (run qs op).
Proof.
  intros Hall. destruct op; simpl.
  - by apply all_quizzes_CreateQuiz.
  - by apply all_quizzes_JoinQuiz.
  - by apply all_quizzes_SubmitAnswer.
  - by apply all_quizzes_GetLeaderboard.
  - by apply all_quizzes_StartQuiz.
  - by apply all_quizzes_EndQuiz.
  - exact Hall.
  - unfold UnregisterClient. by destruct (Clients qs !! ptr).
  - by apply all_quizzes_GetQuiz.
Qed.

Lemma all_quizzes_run_all ops : forall qs,
  all_quizzes I qs -> all_quizzes I (run_all qs ops).
Proof.
  induction ops as [|op ops IH]; intros qs Hall; [exact Hall|].
  simpl. by apply IH, all_quizzes_run.
Qed.

End quiz_invariant.

(** ** Answers and scores of a user *)

Lemma answered_in_true answers questionID :
  answered_in answers questionID = true <->
  exists a, a ∈ answers /\ a_QuestionID a = questionID.
Proof.
  induction answers as [|a answers IH]; simpl.
  - split; [discriminate|]. intros (a & Hin & _). by apply not_elem_of_nil in Hin.
  - case_decide as Hq.
    + split; [|done]. intros _. exists a. split; [left|done].
    + rewrite IH. split.
      * intros (b & Hin & Hb). exists b. split; [by right|done].
      * intros (b & Hin & Hb). apply elem_of_cons in Hin as [->|Hin]; [done|].
        by exists b.
Qed.

Lemma HasAnswered_true u questionID :
  HasAnswered u questionID = true <-> answered u questionID.
Proof. apply answered_in_true. Qed.

Lemma HasAnswered_false u questionID :
  HasAnswered u questionID = false <-> ~ answered u questionID.
Proof.
  rewrite <- HasAnswered_true. by destruct (HasAnswered u questionID).
Qed.


Lemma one_answer_AddAnswer u a :
  one_answer_per_question u -> HasAnswered u (a_QuestionID a) = false ->
  one_answer_per_question (AddAnswer u a).
Proof.
  unfold one_answer_per_question. intros Hnd Hans. simpl.
  rewrite fmap_app. apply NoDup_app. split_and!.
  - exact Hnd.
  - intros qid Hin Hin'. apply list_elem_of_singleton in Hin' as ->.
    apply HasAnswered_false in Hans. apply Hans.
    apply list_elem_of_fmap in Hin as (b & Hb & Hin). by exists b.
  - apply NoDup_singleton.
Qed.

Lemma sum_correct_app l1 l2 :
  sum_correct (l1 ++ l2) = sum_correct l1 + sum_correct l2.
Proof. induction l1 as [|a l1 IH]; simpl; [done|]. rewrite IH. lia. Qed.

Lemma score_consistent_AddAnswer u a :
  score_consistent u -> score_consistent (AddAnswer u a).
Proof.
  unfold score_consistent. intros Hs. simpl.
  rewrite sum_correct_app. simpl. unfold earned. destruct (a_Correct a).
  - unfold Int.add. rewrite Hs, wrap_add_l. f_equal. lia.
  - rewrite Hs. f_equal. lia.
Qed.

(** ** SubmitAnswer, case by case *)

Lemma find_question_None questions questionID :
  find_question questions questionID = None <->
  forall q, q ∈ questions -> q_ID q <> questionID.
Proof.
  induction questions as [|q questions IH]; simpl.
  - split; [|done]. intros _ q Hin. by apply not_elem_of_nil in Hin.
  - case_decide as Hq.
    + split; [discriminate|]. intros H. exfalso. apply (H q); [left|done].
    + rewrite IH. split.
      * intros H q' [->|Hin]%elem_of_cons; [done|by apply H].
      * intros H q' Hin. apply H. by right.
Qed.

(** [find_question] returns the first question with the id. *)
Lemma find_question_Some questions questionID question :
  find_question questions questionID = Some question <->
  exists pre post, questions = pre ++ question :: post /\
    q_ID question = questionID /\
    forall q, q ∈ pre -> q_ID q <> questionID.
Proof.
  induction questions as [|q questions IH]; simpl.
  - split; [discriminate|]. intros (pre & post & H & _). by destruct pre.
  - case_decide as Hq.
    + split.
      * intros [= <-]. exists [], questions. split_and!; [done..|].
        intros q' Hin. by apply not_elem_of_nil in Hin.
      * intros ([|q' pre] & post & H & Hid & Hpre); simpl in H.
        -- by injection H as <- _.
        -- injection H as <- _. exfalso. apply (Hpre q); [left|done].
    + rewrite IH. split.
      * intros (pre & post & -> & Hid & Hpre).
        exists (q :: pre), post. split_and!; [done..|].
        intros q' [->|Hin]%elem_of_cons; [done|by apply Hpre].
      * intros ([|q' pre] & post & H & Hid & Hpre); simpl in H.
        -- injection H as -> _. done.
        -- injection H as <- ->. exists pre, post. split_and!; [done..|].
           intros q'' Hin. apply Hpre. by right.
Qed.

Lemma GetLeaderboard_Quizzes_hit qs quizID order :
  is_Some (Quizzes qs !! quizID) ->
  Quizzes (snd (GetLeaderboard qs quizID order)) = Quizzes qs.
Proof.
  intros [quiz Hq]. unfold GetLeaderboard. rewrite (GetQuiz_hit _ _ _ Hq).
  by destruct (SaveLeaderboard _ _ _).
Qed.

Lemma broadcastLeaderboard_Quizzes_hit qs quizID order :
  is_Some (Quizzes qs !! quizID) ->
  Quizzes (broadcastLeaderboard qs quizID order) = Quizzes qs.
Proof.
  intros Hq. unfold broadcastLeaderboard.
  pose proof (GetLeaderboard_Quizzes_hit qs quizID order Hq) as H.
  destruct (GetLeaderboard qs quizID order) as [[lb|e] qs1]; simpl in H;
    [|done].
  by rewrite broadcastToQuiz_Quizzes.
Qed.

(** The accepted answer: the quizzes after the call. *)
Lemma SubmitAnswer_accepts qs quizID userID questionID answer now order
    quiz qs0 user question :
  GetQuiz qs quizID = (Ok quiz, qs0) ->
  z_Participants quiz !! userID = Some user ->
  HasAnswered user questionID = false ->
  find_question (z_Questions quiz) questionID = Some question ->
  exists qs',
    SubmitAnswer qs quizID userID questionID answer now order = (None, qs') /\
    Quizzes qs' =
      <[quizID := with_user quiz userID
                    (AddAnswer user (grade question questionID answer now))]>
        (Quizzes qs0).
Proof.
  intros Hget Hu Hans Hfind. unfold SubmitAnswer.
  rewrite Hget, Hu, Hans, Hfind.
  destruct (SaveQuiz _ _) as [e3 rs3]. destruct (SaveUser _ _) as [e4 rs4].
  eexists. split; [reflexivity|].
  rewrite broadcastLeaderboard_Quizzes_hit.
  - by rewrite broadcastToQuiz_Quizzes.
  - rewrite broadcastToQuiz_Quizzes. simpl. rewrite lookup_insert_eq. by eexists.
Qed.


(** What an error tells: the state is the one [GetQuiz] left. *)
Lemma SubmitAnswer_Some_inv qs quizID userID questionID answer now order e qs' :
  SubmitAnswer qs quizID userID questionID answer now order = (Some e, qs') ->
  qs' = snd (GetQuiz qs quizID).
Proof.
  unfold SubmitAnswer.
  destruct (GetQuiz qs quizID) as [[quiz|e0] qs0]; simpl; [|by intros [= _ <-]].
  destruct (z_Participants quiz !! userID) as [user|]; [|by intros [= _ <-]].
  destruct (HasAnswered user questionID); [by intros [= _ <-]|].
  destruct (find_question _ _) as [question|]; [|by intros [= _ <-]].
  destruct (SaveQuiz _ _) as [e3 rs3]. destruct (SaveUser _ _) as [e4 rs4].
  discriminate.
Qed.

(** C3. [SubmitAnswer] fails with a not-found error when the quiz or
    the user is absent, with the conflict error when the user has an
    answer for the question id, and with a not-found error when no
    question of the quiz has the id.  Otherwise it succeeds; with
    [question] the first question of that id, the answer recorded is
    correct exactly when the choice is the question's correct index, it
    earns the question's points when correct and 0 otherwise, it is
    appended to the user's answers, and the score grows by the points of
    a correct answer (an [int] addition); nothing else changes in the
    user, the other participants or the other quizzes. *)
Theorem SubmitAnswer_spec
    (qs : QuizService) (quizID userID questionID : string) (choice now : Z)
    (order : list string) :
  (forall e qs1, GetQuiz qs quizID = (Err e, qs1) ->
     SubmitAnswer qs quizID userID questionID choice now order = (Some e, qs1) /\
     kind_of e = NotFound) /\
  (forall quiz qs1, GetQuiz qs quizID = (Ok quiz, qs1) ->
     (z_Participants quiz !! userID = None ->
        SubmitAnswer qs quizID userID questionID choice now order
        = (Some (ErrUserNotFound userID), qs1) /\
        kind_of (ErrUserNotFound userID) = NotFound) /\
     (forall user, z_Participants quiz !! userID = Some user ->
        (answered user questionID ->
           SubmitAnswer qs quizID userID questionID choice now order
           = (Some ErrAlreadyAnswered, qs1) /\
           kind_of ErrAlreadyAnswered = Conflict) /\
        (~ answered user questionID ->
         (forall q, q ∈ z_Questions quiz -> q_ID q <> questionID) ->
           SubmitAnswer qs quizID userID questionID choice now order
           = (Some (ErrQuestionNotFound questionID), qs1) /\
           kind_of (ErrQuestionNotFound questionID) = NotFound) /\
        (~ answered user questionID ->
         forall pre question post,
           z_Questions quiz = pre ++ question :: post ->
           q_ID question = questionID ->
           (forall q, q ∈ pre -> q_ID q <> questionID) ->
           let correct := bool_decide (choice = q_Correct question) in
           let points := if correct then q_Points question else 0 in
           exists qs' quiz' user',
             SubmitAnswer qs quizID userID questionID choice now order
             = (None, qs') /\
             Quizzes qs' !! quizID = Some quiz' /\
             z_Participants quiz' !! userID = Some user' /\
             u_Answers user'
             = u_Answers user ++ [mkAnswer questionID choice correct points now] /\
             u_Score user'
             = (if correct then Int.wrap (u_Score user + points)
                else u_Score user) /\
             (u_ID user', u_Name user', u_JoinedAt user')
             = (u_ID user, u_Name user, u_JoinedAt user) /\
             (forall uid, uid <> userID ->
                z_Participants quiz' !! uid = z_Participants quiz !! uid) /\
             (forall id, id <> quizID ->
                Quizzes qs' !! id = Quizzes qs1 !! id)))).
Proof.
  split.
  - intros e qs1 Hget. split.
    + unfold SubmitAnswer. by rewrite Hget.
    + by rewrite (GetQuiz_Err _ _ _ _ Hget).
  - intros quiz qs1 Hget. split.
    + intros Hu. split; [|done]. unfold SubmitAnswer. by rewrite Hget, Hu.
    + intros user Hu. split_and!.
      * intros Hans%HasAnswered_true. split; [|done].
        unfold SubmitAnswer. by rewrite Hget, Hu, Hans.
      * intros Hans%HasAnswered_false Hq%find_question_None. split; [|done].
        unfold SubmitAnswer. by rewrite Hget, Hu, Hans, Hq.
      * intros Hans%HasAnswered_false pre question post Hqs Hid Hpre
          correct points.
        assert (Hfind : find_question (z_Questions quiz) questionID
                        = Some question).
        { apply find_question_Some. by exists pre, post. }
        destruct (SubmitAnswer_accepts qs quizID userID questionID choice now
                    order quiz qs1 user question Hget Hu Hans Hfind)
          as (qs' & Hs & Hqz).
        eexists qs', _, _. split; [exact Hs|]. rewrite Hqz. split_and!.
        -- apply lookup_insert_eq.
        -- simpl. apply lookup_insert_eq.
        -- reflexivity.
        -- simpl. unfold correct, points. by destruct (bool_decide _).
        -- reflexivity.
        -- intros uid Hne. simpl. by rewrite lookup_insert_ne.
        -- intros id Hne. by rewrite lookup_insert_ne.
Qed.

Lemma SubmitAnswer_spec_witness :
  exists qs' quiz' user',
    SubmitAnswer local_service "geo" "u1" "q2" 2 9 ["u1"; "u2"] = (None, qs') /\
    Quizzes qs' !! "geo" = Some quiz' /\
    z_Participants quiz' !! "u1" = Some user' /\
    u_Answers user' = [mkAnswer "q1" 0 true 10 5; mkAnswer "q2" 2 true 15 9] /\
    u_Score user' = 25.
Proof.
  destruct (SubmitAnswer_spec local_service "geo" "u1" "q2" 2 9 ["u1"; "u2"])
    as [_ H].
  destruct (H geo local_service eq_refl) as [_ H2].
  destruct (H2 alice eq_refl) as (_ & _ & H3).
  destruct (H3 ltac:(intros (a & Hin & Ha); vm_compute in Hin;
                     apply list_elem_of_singleton in Hin as ->; discriminate)
              [mkQuestion "q1" "What is the capital of Vietnam?"
                 ["Hanoi"; "Ho Chi Minh City"; "Da Nang"; "Hue"] 0 10 "Geography"]
              (mkQuestion "q2"
                 "Which programming language is this quiz written in?"
                 ["Python"; "JavaScript"; "Go"; "Java"] 2 15 "Programming")
              (drop 2 getSampleQuestions) eq_refl eq_refl
              ltac:(intros q ->%list_elem_of_singleton; discriminate))
    as (qs' & quiz' & user' & Hs & Hq & Hu & Ha & Hsc & _).
  exists qs', quiz', user'. split_and!; [exact Hs|exact Hq|exact Hu|exact Ha|].
  rewrite Hsc. reflexivity.
Defined.

(** ** Invariants of the participants *)

Section participant_invariant.

Variable P : User -> Prop.

Hypothesis P_new : forall userID userName now, P (mkUser userID userName 0 [] now).

Hypothesis P_add : forall u a,
  P u -> HasAnswered u (a_QuestionID a) = false -> P (AddAnswer u a).

Lemma all_participants_run_all qs ops :
  all_quizzes (all_participants P) qs ->
  all_quizzes (all_participants P) (run_all qs ops).
Proof.
  apply all_quizzes_run_all.
  - intros title quizID now uid u. simpl. by rewrite lookup_empty.
  - intros q userID userName now Hq uid u. simpl.
    destruct (decide (uid = userID)) as [->|Hne].
    + rewrite lookup_insert_eq. intros [= <-]. apply P_new.
    + rewrite lookup_insert_ne by done. apply Hq.
  - intros q userID user questionID question answer now Hq Hu Hans Hfind uid u.
    simpl. destruct (decide (uid = userID)) as [->|Hne].
    + rewrite lookup_insert_eq. intros [= <-].
      apply P_add; [by apply (Hq userID)|exact Hans].
    + rewrite lookup_insert_ne by done. apply Hq.
  - intros q st started ended Hq uid u. simpl. apply Hq.
Qed.

End participant_invariant.

Lemma all_quizzes_empty I qs :
  Quizzes qs = ∅ -> redis_quizzes (Redis qs) = ∅ -> all_quizzes I qs.
Proof.
  intros Hm Hr. split; intros id q; rewrite ?Hm, ?Hr, lookup_empty; done.
Qed.



(** ** Scores on the sample questions *)

Lemma find_sample_question questionID question :
  find_question getSampleQuestions questionID = Some question ->
  questionID ∈ (q_ID <$> getSampleQuestions) /\ 0 <= q_Points question <= 20.
Proof.
  unfold getSampleQuestions. simpl.
  repeat case_decide; intros [= <-]; subst; simpl;
    (split; [|lia]); set_solver.
Qed.

Lemma sum_correct_bound answers :
  Forall (fun a => a_QuestionID a ∈ (q_ID <$> getSampleQuestions) /\
                   0 <= earned a <= 20) answers ->
  0 <= sum_correct answers <= 20 * Z.of_nat (length answers).
Proof.
  induction 1 as [|a answers [_ Ha] _ IH]; simpl length; simpl sum_correct; lia.
Qed.

Lemma sample_user_exact u :
  sample_user u -> u_Score u = sum_correct (u_Answers u).
Proof.
  intros (Hnd & Hs & Hall). rewrite Hs. apply wrap_in_range.
  pose proof (sum_correct_bound _ Hall) as Hb.
  assert (Hlen : (length (u_Answers u) <= 5)%nat).
  { rewrite <- (length_fmap a_QuestionID).
    change 5%nat with (length (q_ID <$> getSampleQuestions)).
    apply submseteq_length, NoDup_submseteq; [exact Hnd|].
    intros qid (a & -> & Hin)%list_elem_of_fmap.
    rewrite Forall_forall in Hall. by apply Hall. }
  unfold Int.in_range. lia.
Qed.

Lemma sample_quiz_run_all qs ops :
  all_quizzes sample_quiz qs -> all_quizzes sample_quiz (run_all qs ops).
Proof.
  apply all_quizzes_run_all.
  - intros title quizID now. split; [done|].
    intros uid u. simpl. by rewrite lookup_empty.
  - intros q userID userName now [Hqs Hq]. split; [done|].
    intros uid u. simpl. destruct (decide (uid = userID)) as [->|Hne].
    + rewrite lookup_insert_eq. intros [= <-]. split_and!.
      * apply NoDup_nil_2.
      * reflexivity.
      * constructor.
    + rewrite lookup_insert_ne by done. apply Hq.
  - intros q userID user questionID question answer now [Hqs Hq] Hu Hans Hfind.
    split; [done|]. rewrite Hqs in Hfind.
    destruct (find_sample_question _ _ Hfind) as [Hid Hpts].
    intros uid u. simpl. destruct (decide (uid = userID)) as [->|Hne].
    + rewrite lookup_insert_eq. intros [= <-].
      destruct (Hq userID user Hu) as (Hnd & Hs & Hall). split_and!.
      * by apply one_answer_AddAnswer.
      * by apply score_consistent_AddAnswer.
      * simpl. apply Forall_app. split; [exact Hall|].
        constructor; [|constructor]. split; [exact Hid|].
        unfold earned, grade. simpl. destruct (bool_decide _); lia.
    + rewrite lookup_insert_ne by done. apply Hq.
  - intros q st started ended [Hqs Hq]. split; [done|]. exact Hq.
Qed.

(** C2. The user [JoinQuiz] creates has the score of its (empty)
    answers, and [AddAnswer] keeps the score equal to the sum of the
    points of the correct answers, the sum being taken as an [int];
    hence after every sequence of operations of the service every
    participant's score is that sum when it was before, and the two
    are the same number whenever the sum fits an [int].  From a
    service that starts without quizzes the score is the exact sum,
    after any operations. *)
Theorem score_is_sum_of_correct_points :
  (forall userID userName now,
     score_consistent (mkUser userID userName 0 [] now)) /\
  (forall u a, score_consistent u -> score_consistent (AddAnswer u a)) /\
  (forall u, score_consistent u -> Int.in_range (sum_correct (u_Answers u)) ->
     u_Score u = sum_correct (u_Answers u)) /\
  (forall qs ops,
     all_quizzes (all_participants score_consistent) qs ->
     all_quizzes (all_participants score_consistent) (run_all qs ops)) /\
  (forall qs ops id q uid u,
     Quizzes qs = ∅ -> redis_quizzes (Redis qs) = ∅ ->
     Quizzes (run_all qs ops) !! id = Some q ->
     z_Participants q !! uid = Some u ->
     u_Score u = sum_correct (u_Answers u)).
Proof.
  split_and!.
  - reflexivity.
  - apply score_consistent_AddAnswer.
  - intros u Hs Hr. rewrite Hs. by apply wrap_in_range.
  - intros qs ops. apply all_participants_run_all.
    + reflexivity.
    + intros u a Hs _. by apply score_consistent_AddAnswer.
  - intros qs ops id q uid u Hm Hr Hq Hu.
    destruct (sample_quiz_run_all qs ops (all_quizzes_empty _ qs Hm Hr))
      as [H _].
    destruct (H id q Hq) as [_ Hp]. apply sample_user_exact.
    exact (Hp uid u Hu).
Qed.

Lemma score_is_sum_of_correct_points_witness :
  exists q u,
    Quizzes (run_all empty_service scenario) !! "geo1" = Some q /\
    z_Participants q !! "u1" = Some u /\
    u_Score u = sum_correct (u_Answers u) /\
    u_Score u = 10.
Proof.
  destruct score_is_sum_of_correct_points as (_ & _ & _ & _ & H).
  eexists _, _. split; [vm_compute; reflexivity|].
  split; [vm_compute; reflexivity|]. split; [|reflexivity].
  eapply (H empty_service scenario "geo1" _ "u1").
  - reflexivity.
  - reflexivity.
  - vm_compute. reflexivity.
  - vm_compute. reflexivity.
Defined.

(** The scenario of the specification: the leaderboard is Alice with 10
    points at position 1, then Bob with 0 points at position 2,
    whichever way the two participants are visited. *)
Example scenario_leaderboard :
  fst (GetLeaderboard (run_all empty_service scenario) "geo1" ["u1"; "u2"])
  = Ok [mkEntry "u1" "Alice" 10 1; mkEntry "u2" "Bob" 0 2] /\
  fst (GetLeaderboard (run_all empty_service scenario) "geo1" ["u2"; "u1"])
  = Ok [mkEntry "u1" "Alice" 10 1; mkEntry "u2" "Bob" 0 2].
Proof. split; vm_compute; reflexivity. Qed.

(** C10. When [SubmitAnswer] returns an error, whichever it is, the
    call has done nothing but look the quiz up: no client has been
    sent anything or removed, Redis holds what it held (nothing saved,
    nothing published), every quiz in memory is the same, with its
    participants, their answers and their scores, and so is the quiz
    the service knows for every id.  When the quiz was in memory the
    whole service is unchanged. *)
Theorem SubmitAnswer_error_atomic
    (qs qs' : QuizService) (quizID userID questionID : string)
    (choice now : Z) (order : list string) (e : Error) :
  SubmitAnswer qs quizID userID questionID choice now order = (Some e, qs') ->
  qs' = snd (GetQuiz qs quizID) /\
  Clients qs' = Clients qs /\
  stored (Redis qs') = stored (Redis qs) /\
  (forall id q, Quizzes qs !! id = Some q -> Quizzes qs' !! id = Some q) /\
  (forall id, known_quiz qs' id = known_quiz qs id) /\
  (is_Some (Quizzes qs !! quizID) -> qs' = qs).
Proof.
  intros Hs. apply SubmitAnswer_Some_inv in Hs as ->. split_and!.
  - reflexivity.
  - apply GetQuiz_Clients.
  - apply GetQuiz_stored.
  - intros id q. apply GetQuiz_keeps.
  - apply GetQuiz_known.
  - intros [q Hq]. by rewrite (GetQuiz_hit _ _ _ Hq).
Qed.

Lemma SubmitAnswer_error_atomic_witness :
  snd (SubmitAnswer local_service "geo" "u1" "q1" 0 9 ["u1"; "u2"])
  = local_service.
Proof.
  destruct (SubmitAnswer_error_atomic local_service
              (snd (SubmitAnswer local_service "geo" "u1" "q1" 0 9 ["u1"; "u2"]))
              "geo" "u1" "q1" 0 9 ["u1"; "u2"] ErrAlreadyAnswered)
    as (_ & _ & _ & _ & _ & H).
  - vm_compute. reflexivity.
  - apply H. exists geo. vm_compute. reflexivity.
Defined.

(** ** CreateQuiz and persistence *)

(** C9, the claim as stated fails: with a Redis whose write fails,
    [CreateQuiz] returns the persistence error and no quiz, and the
    registry does not hold the quiz. *)
Lemma CreateQuiz_fails_with_the_write :
  fst (CreateQuiz (mkService ∅ ∅ (Some failing_redis)) "Geo" "geo1" 0)
  = Err ErrSaveQuiz /\
  kind_of ErrSaveQuiz = PersistenceError /\
  Quizzes (snd (CreateQuiz (mkService ∅ ∅ (Some failing_redis)) "Geo" "geo1" 0))
    !! "geo1" = None.
Proof. split_and!; reflexivity. Qed.

(** C9, amended.  [CreateQuiz] fails exactly when [SaveQuiz] returns an
    error: it then returns the persistence error and no quiz, and the
    registry and the clients are as before.  Otherwise it returns the
    new quiz (the id generated, the sample questions, status Waiting,
    no participant), which the registry then holds.  [SaveQuiz] returns
    no error when Redis is unavailable (nothing is written), so in that
    mode [CreateQuiz] always succeeds in memory. *)
Theorem CreateQuiz_spec
    (qs : QuizService) (title quizID : string) (now : Z) :
  (fst (SaveQuiz (Redis qs) (new_quiz title quizID now)) = true ->
     exists qs',
       CreateQuiz qs title quizID now = (Err ErrSaveQuiz, qs') /\
       kind_of ErrSaveQuiz = PersistenceError /\
       Quizzes qs' = Quizzes qs /\ Clients qs' = Clients qs /\
       redis_quizzes (Redis qs') = redis_quizzes (Redis qs)) /\
  (fst (SaveQuiz (Redis qs) (new_quiz title quizID now)) = false ->
     exists qs',
       CreateQuiz qs title quizID now = (Ok (new_quiz title quizID now), qs') /\
       Quizzes qs' = <[quizID := new_quiz title quizID now]> (Quizzes qs) /\
       Clients qs' = Clients qs) /\
  (Redis qs = None ->
     CreateQuiz qs title quizID now
     = (Ok (new_quiz title quizID now),
        set_Quizzes qs (<[quizID := new_quiz title quizID now]> (Quizzes qs)))).
Proof.
  unfold CreateQuiz, new_quiz. split_and!.
  - intros Hf.
    pose proof (SaveQuiz_error_quizzes (Redis qs)
                  (mkQuiz quizID title getSampleQuestions ∅ QuizStatusWaiting
                     now None None) Hf) as Hq.
    destruct (SaveQuiz _ _) as [err rs]. simpl in Hf, Hq. subst err.
    eexists. split_and!; try reflexivity. exact Hq.
  - intros Hf. destruct (SaveQuiz _ _) as [err rs]. simpl in Hf. subst err.
    eexists. split_and!; reflexivity.
  - intros Hr. rewrite Hr. simpl. unfold set_Quizzes. by rewrite Hr.
Qed.

Lemma CreateQuiz_spec_witness :
  CreateQuiz empty_service "Geo" "geo1" 0
  = (Ok (new_quiz "Geo" "geo1" 0),
     set_Quizzes empty_service
       (<["geo1" := new_quiz "Geo" "geo1" 0]> (Quizzes empty_service))).
Proof.
  destruct (CreateQuiz_spec empty_service "Geo" "geo1" 0) as (_ & _ & H).
  apply H. reflexivity.
Defined.

(** ** The relay *)




(** On the channel of [geo], one received event is one more
    publication of it. *)
Example relay_republishes_once :
  redis_published <$> (Redis <$> relay_step relay_service inbound)
  = Some [("quiz:geo", ping)].
Proof. reflexivity. Qed.

(** ** The status of a quiz *)


Lemma JoinQuiz_Quizzes qs quizID userName userID now order quiz qs0 :
  GetQuiz qs quizID = (Ok quiz, qs0) ->
  Quizzes (snd (JoinQuiz qs quizID userName userID now order))
  = <[quizID := AddParticipant quiz (mkUser userID userName 0 [] now)]>
      (Quizzes qs0).
Proof.
  intros Hget. unfold JoinQuiz. rewrite Hget.
  destruct (SaveQuiz _ _) as [e3 rs3]. destruct (SaveUser _ _) as [e4 rs4].
  simpl. rewrite broadcastLeaderboard_Quizzes_hit.
  - by rewrite broadcastToQuiz_Quizzes.
  - rewrite broadcastToQuiz_Quizzes. simpl. rewrite lookup_insert_eq. by eexists.
Qed.


Lemma StartQuiz_rejects qs quizID now quiz qs0 :
  GetQuiz qs quizID = (Ok quiz, qs0) ->
  z_Status quiz <> QuizStatusWaiting ->
  StartQuiz qs quizID now = (Some ErrNotWaiting, qs0).
Proof.
  intros Hget Hst. unfold StartQuiz. rewrite Hget. by rewrite decide_True.
Qed.

Lemma EndQuiz_ends qs quizID now quiz qs0 :
  GetQuiz qs quizID = (Ok quiz, qs0) ->
  exists qs',
    EndQuiz qs quizID now = (None, qs') /\
    Quizzes qs'
    = <[quizID := set_Status quiz QuizStatusEnded (z_StartedAt quiz) (Some now)]>
        (Quizzes qs0).
Proof.
  intros Hget. unfold EndQuiz. rewrite Hget.
  destruct (SaveQuiz _ _) as [e3 rs3].
  eexists. split; [reflexivity|]. by rewrite broadcastToQuiz_Quizzes.
Qed.









(** * Further properties of the code *)

(** ** RedisService: what is saved is read back *)

Lemma SaveQuiz_healthy c quiz :
  r_faults c = [] ->
  SaveQuiz (Some c) quiz
  = (false, Some (sadd_active (set_quiz c (z_ID quiz) quiz) (z_ID quiz))).
Proof. destruct c; simpl. by intros ->. Qed.

Lemma SaveUser_healthy c user :
  r_faults c = [] ->
  SaveUser (Some c) user = (false, Some (set_user c (u_ID user) user)).
Proof. destruct c; simpl. by intros ->. Qed.

Lemma SaveLeaderboard_healthy c quizID lb :
  r_faults c = [] ->
  SaveLeaderboard (Some c) quizID lb
  = (false, Some (set_leaderboard c quizID lb)).
Proof. destruct c; simpl. by intros ->. Qed.

Lemma PublishMessage_healthy c channel message :
  r_faults c = [] ->
  PublishMessage (Some c) channel message
  = (false, Some (publish c channel message)).
Proof. destruct c; simpl. by intros ->. Qed.

Lemma Redis_GetQuiz_healthy c quizID :
  r_faults c = [] ->
  Redis_GetQuiz (Some c) quizID = (r_quiz c !! quizID, Some c).
Proof. destruct c; simpl. by intros ->. Qed.

(** X1. With a Redis that answers, a quiz, a user or a leaderboard
    that has been saved is read back unchanged under its key (the
    quiz's own id, the user's own id, the quiz id given), and saving a
    quiz leaves the quizzes of all other ids as they were. *)
Theorem Redis_save_then_get (c : RedisClient) :
  r_faults c = [] ->
  (forall quiz,
     fst (Redis_GetQuiz (snd (SaveQuiz (Some c) quiz)) (z_ID quiz)) = Some quiz) /\
  (forall quiz id, id <> z_ID quiz ->
     fst (Redis_GetQuiz (snd (SaveQuiz (Some c) quiz)) id)
     = fst (Redis_GetQuiz (Some c) id)) /\
  (forall user,
     fst (Redis_GetUser (snd (SaveUser (Some c) user)) (u_ID user)) = ROk user) /\
  (forall quizID lb,
     fst (Redis_GetLeaderboard (snd (SaveLeaderboard (Some c) quizID lb)) quizID)
     = ROk lb).
Proof.
  intros Hf. split_and!.
  - intros quiz. rewrite (SaveQuiz_healthy c quiz Hf).
    cbn [snd]. rewrite Redis_GetQuiz_healthy by exact Hf.
    simpl. apply lookup_insert_eq.
  - intros quiz id Hne. rewrite (SaveQuiz_healthy c quiz Hf).
    cbn [snd]. rewrite !Redis_GetQuiz_healthy by exact Hf.
    simpl. by apply lookup_insert_ne.
  - intros user. rewrite (SaveUser_healthy c user Hf).
    destruct c as [? ? ? ? ? fs]. simpl in *. subst fs. simpl.
    by rewrite lookup_insert_eq.
  - intros quizID lb. rewrite (SaveLeaderboard_healthy c quizID lb Hf).
    destruct c as [? ? ? ? ? fs]. simpl in *. subst fs. simpl.
    by rewrite lookup_insert_eq.
Qed.

Lemma Redis_save_then_get_witness :
  fst (Redis_GetQuiz (snd (SaveQuiz (Some working_redis) geo)) "geo") = Some geo.
Proof.
  destruct (Redis_save_then_get working_redis eq_refl) as (H & _).
  exact (H geo).
Defined.

(** ** RedisService.DeleteQuiz *)

Lemma Redis_DeleteQuiz_nil rs quizID : fst (Redis_DeleteQuiz rs quizID) = false.
Proof.
  destruct rs as [c|]; [|reflexivity]. unfold Redis_DeleteQuiz.
  repeat (destruct (command _) as [? ?]). reflexivity.
Qed.

Lemma Redis_DeleteQuiz_healthy c quizID :
  r_faults c = [] ->
  Redis_DeleteQuiz (Some c) quizID
  = (false,
     Some (srem_active (del_leaderboard (del_quiz c quizID) quizID) quizID)).
Proof. destruct c as [? ? ? ? ? faults]. simpl. by intros ->. Qed.

(** X2. [DeleteQuiz] never returns an error, whatever its commands
    do.  With a Redis that answers, the quiz is then not found, its
    leaderboard reads as the empty leaderboard, its id is out of the
    active set, the quizzes of the other ids and all the users are
    untouched, and deleting again changes nothing. *)
Theorem Redis_DeleteQuiz_spec (rs : RedisService) (quizID : string) :
  fst (Redis_DeleteQuiz rs quizID) = false /\
  (forall c, rs = Some c -> r_faults c = [] ->
     exists c',
       snd (Redis_DeleteQuiz rs quizID) = Some c' /\
       r_faults c' = [] /\
       fst (Redis_GetQuiz (Some c') quizID) = None /\
       fst (Redis_GetLeaderboard (Some c') quizID) = ROk [] /\
       quizID ∉ r_active c' /\
       (forall id, id <> quizID -> r_quiz c' !! id = r_quiz c !! id) /\
       (forall id, id <> quizID -> id ∈ r_active c' <-> id ∈ r_active c) /\
       r_user c' = r_user c /\
       Redis_DeleteQuiz (Some c') quizID = (false, Some c')).
Proof.
  split.
  - apply Redis_DeleteQuiz_nil.
  - intros [qz us lbs act pub fs] -> Hf. simpl in Hf. subst fs.
    eexists. split; [reflexivity|]. simpl. split_and!.
    + reflexivity.
    + apply lookup_delete_eq.
    + by rewrite lookup_delete_eq.
    + set_solver.
    + intros id Hne. by apply lookup_delete_ne.
    + intros id Hne. set_solver.
    + reflexivity.
    + unfold del_quiz, del_leaderboard, srem_active. simpl.
      do 2 f_equal. f_equal.
      * by rewrite delete_delete_eq.
      * by rewrite delete_delete_eq.
      * set_solver.
Qed.

Lemma Redis_DeleteQuiz_spec_witness :
  fst (Redis_GetQuiz
         (snd (Redis_DeleteQuiz (snd (SaveQuiz (Some working_redis) geo)) "geo"))
         "geo") = None.
Proof.
  destruct (Redis_DeleteQuiz_spec (snd (SaveQuiz (Some working_redis) geo)) "geo")
    as [_ H].
  destruct (H _ eq_refl eq_refl) as (c' & Hc & _ & Hget & _).
  rewrite Hc. exact Hget.
Defined.

(** ** GetQuiz: the cache *)

Lemma GetQuiz_healthy qs quizID c :
  Redis qs = Some c -> r_faults c = [] ->
  Redis (snd (GetQuiz qs quizID)) = Some c.
Proof.
  intros Hr Hf. unfold GetQuiz.
  destruct (Quizzes qs !! quizID); [done|].
  rewrite Hr, (Redis_GetQuiz_healthy c quizID Hf).
  by destruct (r_quiz c !! quizID).
Qed.

(** X3. [GetQuiz] answers from memory first: a quiz in memory is
    returned whatever Redis holds or does, and the service is not
    changed.  A quiz it had to load is in memory afterwards, so that
    the same call again returns the same quiz and changes nothing.
    When the Redis command fails the quiz is reported as not found,
    even if Redis holds it, and nothing is cached. *)
Theorem GetQuiz_cache (qs : QuizService) (quizID : string) :
  (forall quiz rs, Quizzes qs !! quizID = Some quiz ->
     GetQuiz (set_Redis qs rs) quizID = (Ok quiz, set_Redis qs rs)) /\
  (forall quiz qs1, GetQuiz qs quizID = (Ok quiz, qs1) ->
     GetQuiz qs1 quizID = (Ok quiz, qs1)) /\
  (forall c fs, Quizzes qs !! quizID = None ->
     Redis qs = Some c -> r_faults c = true :: fs ->
     exists qs1, GetQuiz qs quizID = (Err (ErrQuizNotFound quizID), qs1) /\
                 Quizzes qs1 = Quizzes qs /\ Clients qs1 = Clients qs /\
                 stored (Redis qs1) = stored (Redis qs)).
Proof.
  split_and!.
  - intros quiz rs Hq. by apply GetQuiz_hit.
  - intros quiz qs1 Hget. apply GetQuiz_hit.
    by apply (GetQuiz_Ok_lookup qs quizID).
  - intros c fs Hq Hr Hf. unfold GetQuiz. rewrite Hq.
    destruct qs as [quizzes clients redis]. simpl in Hr. subst redis.
    destruct c as [? ? ? ? ? faults]. simpl in Hf. subst faults. simpl.
    eexists. split; [reflexivity|]. by split_and!.
Qed.

Lemma GetQuiz_cache_witness :
  GetQuiz (set_Redis local_service (Some failing_redis)) "geo"
  = (Ok geo, set_Redis local_service (Some failing_redis)).
Proof.
  destruct (GetQuiz_cache local_service "geo") as (H & _).
  apply H. reflexivity.
Defined.

(** X4. A quiz created on a service whose Redis answers is stored
    under its id and entered in the active set; any other service on
    the same Redis that does not hold the id in memory gets that same
    quiz from [GetQuiz]. *)
Theorem created_quiz_reaches_other_instances
    (qsA qsB : QuizService) (c : RedisClient) (title quizID : string) (now : Z) :
  Redis qsA = Some c -> r_faults c = [] ->
  exists qsA' c',
    CreateQuiz qsA title quizID now = (Ok (new_quiz title quizID now), qsA') /\
    Redis qsA' = Some c' /\ r_faults c' = [] /\
    r_quiz c' !! quizID = Some (new_quiz title quizID now) /\
    quizID ∈ r_active c' /\
    (Quizzes qsB !! quizID = None -> Redis qsB = Redis qsA' ->
     fst (GetQuiz qsB quizID) = Ok (new_quiz title quizID now)).
Proof.
  intros Hr Hf. unfold CreateQuiz. fold (new_quiz title quizID now).
  rewrite Hr, (SaveQuiz_healthy c _ Hf).
  eexists _, _. split; [reflexivity|]. simpl. split_and!.
  - reflexivity.
  - exact Hf.
  - apply lookup_insert_eq.
  - set_solver.
  - intros Hq HrB. unfold GetQuiz. rewrite Hq, HrB.
    rewrite Redis_GetQuiz_healthy by exact Hf.
    simpl. by rewrite lookup_insert_eq.
Qed.

Lemma created_quiz_reaches_other_instances_witness :
  exists qsA' c',
    CreateQuiz relay_service "Geo" "geo1" 0
    = (Ok (new_quiz "Geo" "geo1" 0), qsA') /\
    Redis qsA' = Some c' /\ r_faults c' = [] /\
    r_quiz c' !! "geo1" = Some (new_quiz "Geo" "geo1" 0) /\
    "geo1" ∈ r_active c' /\
    (Quizzes empty_service !! "geo1" = None -> Redis empty_service = Redis qsA' ->
     fst (GetQuiz empty_service "geo1") = Ok (new_quiz "Geo" "geo1" 0)).
Proof.
  apply (created_quiz_reaches_other_instances relay_service empty_service
           working_redis "Geo" "geo1" 0); reflexivity.
Defined.

(** ** The registry of clients *)

Lemma broadcastToQuiz_Clients qs quizID message :
  Clients (broadcastToQuiz qs quizID message)
  = deliver_local quizID message (map_to_list (Clients qs)).*1 (Clients qs).
Proof.
  unfold broadcastToQuiz, broadcastToQuiz_in.
  by destruct (PublishMessage _ _ _).
Qed.

Lemma broadcastToQuiz_lookup qs quizID message p :
  Clients (broadcastToQuiz qs quizID message) !! p
  = Clients qs !! p ≫= delivered quizID message.
Proof.
  rewrite broadcastToQuiz_Clients. apply deliver_local_lookup.
  unfold range_of. reflexivity.
Qed.

(** X5. Registering puts the client in the registry under its pointer;
    unregistering removes it and nothing else, does nothing for a
    pointer that is not registered, and is idempotent; registering a
    new pointer and unregistering it gives the service back. *)
Theorem register_unregister
    (qs : QuizService) (ptr : positive) (client : Client) :
  Clients (RegisterClient qs ptr client) !! ptr = Some client /\
  Clients (UnregisterClient qs ptr) !! ptr = None /\
  (forall p, p <> ptr ->
     Clients (UnregisterClient qs ptr) !! p = Clients qs !! p /\
     Clients (RegisterClient qs ptr client) !! p = Clients qs !! p) /\
  UnregisterClient (UnregisterClient qs ptr) ptr = UnregisterClient qs ptr /\
  (Clients qs !! ptr = None ->
     UnregisterClient qs ptr = qs /\
     UnregisterClient (RegisterClient qs ptr client) ptr = qs).
Proof.
  destruct qs as [quizzes clients redis].
  unfold UnregisterClient, RegisterClient, set_Clients. simpl. split_and!.
  - apply lookup_insert_eq.
  - destruct (clients !! ptr) eqn:Hp; simpl; [apply lookup_delete_eq|done].
  - intros p Hne. split.
    + destruct (clients !! ptr); simpl; [by apply lookup_delete_ne|done].
    + by apply lookup_insert_ne.
  - destruct (clients !! ptr) eqn:Hp; simpl.
    + by rewrite lookup_delete_eq.
    + by rewrite Hp.
  - intros Hp. rewrite Hp, lookup_insert_eq. split; [done|].
    simpl. by rewrite delete_insert_id.
Qed.

Lemma register_unregister_witness :
  UnregisterClient (RegisterClient local_service 7%positive
                      (mkClient "c7" "" "" [] 256)) 7%positive
  = local_service.
Proof.
  destruct (register_unregister local_service 7%positive
              (mkClient "c7" "" "" [] 256)) as (_ & _ & _ & _ & H).
  apply H. reflexivity.
Defined.

Section registry_relation.

Variable R : gmap positive Client -> gmap positive Client -> Prop.

Hypothesis R_refl : forall cs, R cs cs.
Hypothesis R_trans : forall cs1 cs2 cs3, R cs1 cs2 -> R cs2 cs3 -> R cs1 cs3.
Hypothesis R_broadcast : forall qs quizID message,
  R (Clients qs) (Clients (broadcastToQuiz qs quizID message)).
Hypothesis R_delete : forall cs p, R cs (delete p cs).

Lemma R_eq cs cs' : cs = cs' -> R cs cs'.
Proof. intros ->. apply R_refl. Qed.

Lemma R_GetLeaderboard qs quizID order :
  R (Clients qs) (Clients (snd (GetLeaderboard qs quizID order))).
Proof.
  apply R_eq. unfold GetLeaderboard.
  pose proof (GetQuiz_Clients qs quizID) as H.
  destruct (GetQuiz qs quizID) as [[quiz|e] qs1]; simpl in *; [|done].
  by destruct (SaveLeaderboard _ _ _).
Qed.

Lemma R_broadcastLeaderboard qs quizID order :
  R (Clients qs) (Clients (broadcastLeaderboard qs quizID order)).
Proof.
  unfold broadcastLeaderboard.
  pose proof (R_GetLeaderboard qs quizID order) as H.
  destruct (GetLeaderboard qs quizID order) as [[lb|e] qs1]; simpl in *;
    [|done].
  eapply R_trans; [exact H|apply R_broadcast].
Qed.

Lemma R_run qs op : ~ is_register op -> R (Clients qs) (Clients (run qs op)).
Proof.
  intros Hop.
  destruct op as [title quizID now|quizID userName userID now order
                 |quizID userID questionID answer now order|quizID order
                 |quizID now|quizID now|ptr client|ptr|quizID]; simpl.
  - apply R_eq. unfold CreateQuiz. by destruct (SaveQuiz _ _) as [[] rs].
  - unfold JoinQuiz. pose proof (GetQuiz_Clients qs quizID) as H.
    destruct (GetQuiz qs quizID) as [[quiz|e] qs1]; simpl in *;
      [|by apply R_eq].
    destruct (SaveQuiz _ _) as [e3 rs3]. destruct (SaveUser _ _) as [e4 rs4].
    simpl. eapply R_trans; [|apply R_broadcastLeaderboard].
    eapply R_trans; [|apply R_broadcast]. by apply R_eq.
  - unfold SubmitAnswer. pose proof (GetQuiz_Clients qs quizID) as H.
    destruct (GetQuiz qs quizID) as [[quiz|e] qs1]; simpl in *;
      [|by apply R_eq].
    destruct (z_Participants quiz !! userID) as [user|]; [|by apply R_eq].
    destruct (HasAnswered user questionID); [by apply R_eq|].
    destruct (find_question _ _) as [question|]; [|by apply R_eq].
    destruct (SaveQuiz _ _) as [e3 rs3]. destruct (SaveUser _ _) as [e4 rs4].
    simpl. eapply R_trans; [|apply R_broadcastLeaderboard].
    eapply R_trans; [|apply R_broadcast]. by apply R_eq.
  - apply R_GetLeaderboard.
  - unfold StartQuiz. pose proof (GetQuiz_Clients qs quizID) as H.
    destruct (GetQuiz qs quizID) as [[quiz|e] qs1]; simpl in *;
      [|by apply R_eq].
    case_decide; [by apply R_eq|].
    destruct (SaveQuiz _ _) as [e3 rs3]. simpl.
    eapply R_trans; [|apply R_broadcast]. by apply R_eq.
  - unfold EndQuiz. pose proof (GetQuiz_Clients qs quizID) as H.
    destruct (GetQuiz qs quizID) as [[quiz|e] qs1]; simpl in *;
      [|by apply R_eq].
    destruct (SaveQuiz _ _) as [e3 rs3]. simpl.
    eapply R_trans; [|apply R_broadcast]. by apply R_eq.
  - by destruct Hop.
  - unfold UnregisterClient. destruct (Clients qs !! ptr); simpl;
      [apply R_delete|apply R_refl].
  - apply R_eq. by rewrite GetQuiz_Clients.
Qed.

End registry_relation.

Lemma delivered_grows quizID message c c' :
  delivered quizID message c = Some c' -> queue_grows c c'.
Proof.
  unfold delivered, try_send, queue_grows.
  repeat case_decide; intros [= <-]; simpl; split_and!; try done.
  by apply prefix_app_r.
Qed.

Lemma delivered_bounded quizID message c c' :
  delivered quizID message c = Some c' ->
  (length (c_Send c) <= c_Cap c)%nat -> (length (c_Send c') <= c_Cap c')%nat.
Proof.
  unfold delivered, try_send.
  repeat case_decide; intros [= <-]; simpl; [|done..].
  rewrite length_app. simpl. lia.
Qed.

(** X6. No operation of the service other than RegisterClient adds a
    client; every client left after the operation is the connection it
    was (same id, quiz, user and capacity), with the messages it had
    still queued in the same order and possibly new ones after them;
    and queues within their capacity stay within their capacity. *)
Theorem registry_only_loses_clients (qs : QuizService) (op : Op) :
  ~ is_register op ->
  registry_evolves (Clients qs) (Clients (run qs op)) /\
  (queues_bounded (Clients qs) -> queues_bounded (Clients (run qs op))).
Proof.
  intros Hop. split.
  - apply (R_run registry_evolves); try assumption.
    + intros cs p c Hc. exists c. split; [done|]. by split_and!.
    + intros cs1 cs2 cs3 H12 H23 p c3 Hc3.
      destruct (H23 p c3 Hc3) as (c2 & Hc2 & H2 & H2' & H2'' & H2c & Hpre2).
      destruct (H12 p c2 Hc2) as (c1 & Hc1 & H1 & H1' & H1'' & H1c & Hpre1).
      exists c1. split; [done|]. split_and!; try congruence.
      by etrans.
    + intros qs' quizID message p c'. rewrite broadcastToQuiz_lookup.
      destruct (Clients qs' !! p) as [c|]; [|discriminate]. simpl.
      intros Hd. exists c. split; [done|]. by eapply delivered_grows.
    + intros cs p p' c'. intros Hc.
      destruct (decide (p' = p)) as [->|Hne].
      * by rewrite lookup_delete_eq in Hc.
      * rewrite lookup_delete_ne in Hc by done. exists c'.
        split; [done|]. by split_and!.
  - apply (R_run (fun cs cs' => queues_bounded cs -> queues_bounded cs'));
      try assumption.
    + auto.
    + auto.
    + intros qs' quizID message Hb p c'. rewrite broadcastToQuiz_lookup.
      destruct (Clients qs' !! p) as [c|] eqn:Hc; [|discriminate]. simpl.
      intros Hd. eapply delivered_bounded; [exact Hd|]. by apply (Hb p).
    + intros cs p Hb p' c'. intros Hc.
      destruct (decide (p' = p)) as [->|Hne].
      * by rewrite lookup_delete_eq in Hc.
      * rewrite lookup_delete_ne in Hc by done. by apply (Hb p').
Qed.

Lemma registry_only_loses_clients_witness :
  registry_evolves (Clients hub_service)
    (Clients (run hub_service (OpStartQuiz "geo" 9))).
Proof.
  apply (registry_only_loses_clients hub_service (OpStartQuiz "geo" 9)).
  simpl. tauto.
Defined.

(** ** The relay, from one instance to another *)





(** X8. The subscription loop skips a message whose payload does not
    decode, and ends for good at the first error of the subscription:
    what is received after it is never delivered.  Without Redis the
    loop does not run at all. *)
Theorem subscription_loop_stops
    (qs : QuizService) (msgs : list RedisMessage)
    (later : list (option RedisMessage)) :
  subscription_loop qs ((Some <$> msgs) ++ None :: later)
  = subscription_loop qs (Some <$> msgs) /\
  (forall channel rest,
     subscription_loop qs (Some (mkRedisMessage channel None) :: rest)
     = subscription_loop qs rest) /\
  (forall inbound,
     startRedisSubscription (set_Redis qs None) inbound
     = Some (set_Redis qs None)).
Proof.
  split_and!.
  - revert qs. induction msgs as [|msg msgs IH]; intros qs; [reflexivity|].
    cbn [fmap list_fmap app subscription_loop].
    destruct (relay_step qs msg) as [qs'|]; [apply IH|reflexivity].
  - reflexivity.
  - reflexivity.
Qed.

(** ** What an accepted operation saves, sends and publishes *)

Lemma broadcastToQuiz_healthy_eq qs quizID message c :
  Redis qs = Some c -> r_faults c = [] ->
  broadcastToQuiz qs quizID message
  = mkService (Quizzes qs)
      (deliver_local quizID message (map_to_list (Clients qs)).*1 (Clients qs))
      (Some (publish c (channel_of quizID) message)).
Proof.
  intros Hr Hf. unfold broadcastToQuiz, broadcastToQuiz_in, channel_of.
  by rewrite Hr, (PublishMessage_healthy c _ _ Hf).
Qed.

Lemma broadcastLeaderboard_healthy_eq qs quizID order quiz c :
  Quizzes qs !! quizID = Some quiz -> Redis qs = Some c -> r_faults c = [] ->
  broadcastLeaderboard qs quizID order
  = mkService (Quizzes qs)
      (deliver_local quizID
         (leaderboard_update (Quiz_GetLeaderboard quiz order))
         (map_to_list (Clients qs)).*1 (Clients qs))
      (Some (publish
               (set_leaderboard c quizID (Quiz_GetLeaderboard quiz order))
               (channel_of quizID)
               (leaderboard_update (Quiz_GetLeaderboard quiz order)))).
Proof.
  intros Hq Hr Hf. unfold broadcastLeaderboard, GetLeaderboard.
  rewrite (GetQuiz_hit _ _ _ Hq), Hr, (SaveLeaderboard_healthy c _ _ Hf).
  rewrite (broadcastToQuiz_healthy_eq _ _ _ (set_leaderboard c quizID
             (Quiz_GetLeaderboard quiz order))); [reflexivity|reflexivity|exact Hf].
Qed.

Lemma after_events_two quizID m1 m2 cs p :
  deliver_local quizID m2
    (map_to_list (deliver_local quizID m1 (map_to_list cs).*1 cs)).*1
    (deliver_local quizID m1 (map_to_list cs).*1 cs) !! p
  = after_events quizID [m1; m2] cs p.
Proof.
  unfold after_events. simpl.
  rewrite !deliver_local_lookup by (unfold range_of; reflexivity).
  reflexivity.
Qed.

(** X9. An accepted answer, on a service whose Redis answers: the quiz
    with the new answer is saved under the quiz's id and entered in the
    active set, the user with the new answer and score under the
    user's id, the leaderboard of the updated quiz under the quiz id;
    two events are published on the quiz's channel, the score update
    with the new score and then the leaderboard update with that
    leaderboard; and the registered clients are sent these two events,
    in this order. *)
Theorem SubmitAnswer_saves_and_publishes
    (qs qs0 : QuizService) (c : RedisClient)
    (quizID userID questionID : string) (choice now : Z) (order : list string)
    (quiz : Quiz) (user : User) (question : Question) :
  Redis qs = Some c -> r_faults c = [] ->
  GetQuiz qs quizID = (Ok quiz, qs0) ->
  z_Participants quiz !! userID = Some user ->
  HasAnswered user questionID = false ->
  find_question (z_Questions quiz) questionID = Some question ->
  let user' := AddAnswer user (grade question questionID choice now) in
  let quiz' := with_user quiz userID user' in
  let lb := Quiz_GetLeaderboard quiz' order in
  exists qs' c',
    SubmitAnswer qs quizID userID questionID choice now order = (None, qs') /\
    Redis qs' = Some c' /\ r_faults c' = [] /\
    r_quiz c' = <[z_ID quiz := quiz']> (r_quiz c) /\
    r_active c' = {[ z_ID quiz ]} ∪ r_active c /\
    r_user c' = <[u_ID user := user']> (r_user c) /\
    r_leaderboard c' = <[quizID := lb]> (r_leaderboard c) /\
    r_published c'
    = r_published c ++ [(channel_of quizID, score_update userID user');
                        (channel_of quizID, leaderboard_update lb)] /\
    forall p, Clients qs' !! p
              = after_events quizID
                  [score_update userID user'; leaderboard_update lb]
                  (Clients qs) p.
Proof.
  intros Hr Hf Hget Hu Hans Hfind user' quiz' lb.
  pose proof (GetQuiz_healthy qs quizID c Hr Hf) as Hr0.
  pose proof (GetQuiz_Clients qs quizID) as Hc0.
  rewrite Hget in Hr0, Hc0. destruct qs0 as [q0 cl0 r0].
  simpl in Hr0, Hc0. subst r0 cl0.
  unfold SubmitAnswer. rewrite Hget, Hu, Hans, Hfind.
  fold user'. change (set_Participants quiz (<[userID:=user']> (z_Participants quiz)))
    with quiz'.
  cbn [set_Quizzes Redis Quizzes Clients].
  rewrite (SaveQuiz_healthy c quiz' Hf).
  rewrite (SaveUser_healthy _ user'); [|exact Hf].
  erewrite broadcastToQuiz_healthy_eq; [|reflexivity|exact Hf].
  erewrite broadcastLeaderboard_healthy_eq;
    [|cbn [Quizzes]; apply lookup_insert_eq|reflexivity|exact Hf].
  eexists _, _. split; [reflexivity|]. cbn [Redis Clients set_Redis].
  split_and!; try reflexivity.
  - exact Hf.
  - simpl. by rewrite <- app_assoc.
  - intros p. apply after_events_two.
Qed.

Lemma SubmitAnswer_saves_and_publishes_witness :
  redis_published
    (Redis (snd (SubmitAnswer healthy_service "geo" "u1" "q2" 2 9 ["u1"; "u2"])))
  = [("quiz:geo",
      mkMessage "score_update" (PUserScore (mkUserScore "u1" "Alice" 25)));
     ("quiz:geo",
      mkMessage "leaderboard_update"
        (PLeaderboard [mkEntry "u1" "Alice" 25 1; mkEntry "u2" "Bob" 0 2]))].
Proof.
  destruct (SubmitAnswer_saves_and_publishes healthy_service healthy_service
              working_redis "geo" "u1" "q2" 2 9 ["u1"; "u2"] geo alice
              (mkQuestion "q2"
                 "Which programming language is this quiz written in?"
                 ["Python"; "JavaScript"; "Go"; "Java"] 2 15 "Programming")
              eq_refl eq_refl eq_refl eq_refl eq_refl eq_refl)
    as (qs' & c' & Hs & Hr & _ & _ & _ & _ & _ & Hpub & _).
  rewrite Hs. cbn [snd]. rewrite Hr. cbn [redis_published]. rewrite Hpub.
  vm_compute. reflexivity.
Defined.

(** X10. An accepted join, on a service whose Redis answers: the quiz
    with the new participant is saved under the quiz's id and the new
    user under its id; the events published on the quiz's channel are
    the join and then the leaderboard of the quiz with the new
    participant, which is also saved; the registered clients are sent
    the two events in this order. *)
Theorem JoinQuiz_saves_and_publishes
    (qs qs0 : QuizService) (c : RedisClient)
    (quizID userName userID : string) (now : Z) (order : list string)
    (quiz : Quiz) :
  Redis qs = Some c -> r_faults c = [] ->
  GetQuiz qs quizID = (Ok quiz, qs0) ->
  let user := mkUser userID userName 0 [] now in
  let quiz' := AddParticipant quiz user in
  let lb := Quiz_GetLeaderboard quiz' order in
  exists qs' c',
    JoinQuiz qs quizID userName userID now order = (Ok user, qs') /\
    Quizzes qs' = <[quizID := quiz']> (Quizzes qs0) /\
    Redis qs' = Some c' /\ r_faults c' = [] /\
    r_quiz c' = <[z_ID quiz := quiz']> (r_quiz c) /\
    r_active c' = {[ z_ID quiz ]} ∪ r_active c /\
    r_user c' = <[userID := user]> (r_user c) /\
    r_leaderboard c' = <[quizID := lb]> (r_leaderboard c) /\
    r_published c'
    = r_published c ++ [(channel_of quizID, user_joined userID userName);
                        (channel_of quizID, leaderboard_update lb)] /\
    forall p, Clients qs' !! p
              = after_events quizID
                  [user_joined userID userName; leaderboard_update lb]
                  (Clients qs) p.
Proof.
  intros Hr Hf Hget user quiz' lb.
  pose proof (GetQuiz_healthy qs quizID c Hr Hf) as Hr0.
  pose proof (GetQuiz_Clients qs quizID) as Hc0.
  rewrite Hget in Hr0, Hc0. destruct qs0 as [q0 cl0 r0].
  simpl in Hr0, Hc0. subst r0 cl0.
  unfold JoinQuiz. rewrite Hget. fold user. fold quiz'.
  cbn [set_Quizzes Redis Quizzes Clients].
  rewrite (SaveQuiz_healthy c quiz' Hf).
  rewrite (SaveUser_healthy _ user); [|exact Hf].
  erewrite broadcastToQuiz_healthy_eq; [|reflexivity|exact Hf].
  erewrite broadcastLeaderboard_healthy_eq;
    [|cbn [Quizzes]; apply lookup_insert_eq|reflexivity|exact Hf].
  eexists _, _. split; [reflexivity|]. cbn [Redis Clients Quizzes set_Redis].
  split_and!; try reflexivity.
  - exact Hf.
  - simpl. by rewrite <- app_assoc.
  - intros p. apply after_events_two.
Qed.

Lemma JoinQuiz_saves_and_publishes_witness :
  redis_published
    (Redis (snd (JoinQuiz healthy_service "geo" "Dan" "u9" 9 ["u1"; "u2"; "u9"])))
  = [("quiz:geo", mkMessage "user_joined" (PUserJoined "u9" "Dan"));
     ("quiz:geo",
      mkMessage "leaderboard_update"
        (PLeaderboard [mkEntry "u1" "Alice" 10 1; mkEntry "u2" "Bob" 0 2;
                       mkEntry "u9" "Dan" 0 3]))].
Proof.
  destruct (JoinQuiz_saves_and_publishes healthy_service healthy_service
              working_redis "geo" "Dan" "u9" 9 ["u1"; "u2"; "u9"] geo
              eq_refl eq_refl eq_refl)
    as (qs' & c' & Hs & _ & Hr & _ & _ & _ & _ & _ & Hpub & _).
  rewrite Hs. cbn [snd]. rewrite Hr. cbn [redis_published]. rewrite Hpub.
  vm_compute. reflexivity.
Defined.

(** ** Redis is looked for once *)

Lemma SaveQuiz_available rs quiz :
  IsAvailable (snd (SaveQuiz rs quiz)) = IsAvailable rs.
Proof. redis_cases rs; reflexivity. Qed.

Lemma SaveUser_available rs user :
  IsAvailable (snd (SaveUser rs user)) = IsAvailable rs.
Proof. redis_cases rs; reflexivity. Qed.

Lemma SaveLeaderboard_available rs quizID lb :
  IsAvailable (snd (SaveLeaderboard rs quizID lb)) = IsAvailable rs.
Proof. redis_cases rs; reflexivity. Qed.

Lemma PublishMessage_available rs channel message :
  IsAvailable (snd (PublishMessage rs channel message)) = IsAvailable rs.
Proof. redis_cases rs; reflexivity. Qed.

Lemma Redis_GetQuiz_available rs quizID :
  IsAvailable (snd (Redis_GetQuiz rs quizID)) = IsAvailable rs.
Proof. redis_cases rs; reflexivity. Qed.

Lemma GetQuiz_available qs quizID :
  IsAvailable (Redis (snd (GetQuiz qs quizID))) = IsAvailable (Redis qs).
Proof.
  unfold GetQuiz. destruct (Quizzes qs !! quizID); [done|].
  pose proof (Redis_GetQuiz_available (Redis qs) quizID) as H.
  by destruct (Redis_GetQuiz (Redis qs) quizID) as [[quiz|] rs].
Qed.

Lemma broadcastToQuiz_available qs quizID message :
  IsAvailable (Redis (broadcastToQuiz qs quizID message))
  = IsAvailable (Redis qs).
Proof.
  unfold broadcastToQuiz, broadcastToQuiz_in.
  pose proof (PublishMessage_available (Redis qs) ("quiz:" +:+ quizID) message).
  by destruct (PublishMessage _ _ _).
Qed.

Lemma GetLeaderboard_available qs quizID order :
  IsAvailable (Redis (snd (GetLeaderboard qs quizID order)))
  = IsAvailable (Redis qs).
Proof.
  unfold GetLeaderboard. pose proof (GetQuiz_available qs quizID) as H.
  destruct (GetQuiz qs quizID) as [[quiz|e] qs1]; simpl in *; [|done].
  pose proof (SaveLeaderboard_available (Redis qs1) quizID
                (Quiz_GetLeaderboard quiz order)) as H'.
  destruct (SaveLeaderboard _ _ _) as [err rs]. simpl in *. congruence.
Qed.

Lemma broadcastLeaderboard_available qs quizID order :
  IsAvailable (Redis (broadcastLeaderboard qs quizID order))
  = IsAvailable (Redis qs).
Proof.
  unfold broadcastLeaderboard.
  pose proof (GetLeaderboard_available qs quizID order) as H.
  destruct (GetLeaderboard qs quizID order) as [[lb|e] qs1]; simpl in *;
    [|done].
  by rewrite broadcastToQuiz_available.
Qed.

(** X11. Whether the service has a Redis is settled when it is built:
    no operation of the service and no step of the relay changes it.
    A service without Redis stays without, one with Redis keeps it,
    whatever the commands answer. *)
Theorem availability_is_fixed (qs : QuizService) :
  (forall op, IsAvailable (Redis (run qs op)) = IsAvailable (Redis qs)) /\
  (forall msg qs', relay_step qs msg = Some qs' ->
     IsAvailable (Redis qs') = IsAvailable (Redis qs)).
Proof.
  split.
  - intros op.
    destruct op as [title quizID now|quizID userName userID now order
                   |quizID userID questionID answer now order|quizID order
                   |quizID now|quizID now|ptr client|ptr|quizID]; simpl.
    + unfold CreateQuiz.
      pose proof (SaveQuiz_available (Redis qs)
                    (mkQuiz quizID title getSampleQuestions ∅
                       QuizStatusWaiting now None None)) as H.
      by destruct (SaveQuiz _ _) as [[] rs].
    + unfold JoinQuiz. pose proof (GetQuiz_available qs quizID) as H.
      destruct (GetQuiz qs quizID) as [[quiz|e] qs1]; simpl in *; [|done].
      pose proof (SaveQuiz_available (Redis qs1)
                    (AddParticipant quiz (mkUser userID userName 0 [] now)))
        as H3.
      destruct (SaveQuiz _ _) as [e3 rs3].
      pose proof (SaveUser_available rs3 (mkUser userID userName 0 [] now))
        as H4.
      destruct (SaveUser _ _) as [e4 rs4]. simpl in *.
      rewrite broadcastLeaderboard_available, broadcastToQuiz_available.
      simpl. congruence.
    + unfold SubmitAnswer. pose proof (GetQuiz_available qs quizID) as H.
      destruct (GetQuiz qs quizID) as [[quiz|e] qs1]; simpl in *; [|done].
      destruct (z_Participants quiz !! userID) as [user|]; [|done].
      destruct (HasAnswered user questionID); [done|].
      destruct (find_question _ _) as [question|]; [|done].
      match goal with
      | |- context [SaveQuiz ?r ?q] =>
          pose proof (SaveQuiz_available r q) as H3;
          destruct (SaveQuiz r q) as [e3 rs3]
      end.
      match goal with
      | |- context [SaveUser ?r ?u] =>
          pose proof (SaveUser_available r u) as H4;
          destruct (SaveUser r u) as [e4 rs4]
      end.
      simpl in *.
      rewrite broadcastLeaderboard_available, broadcastToQuiz_available.
      simpl. congruence.
    + apply GetLeaderboard_available.
    + unfold StartQuiz. pose proof (GetQuiz_available qs quizID) as H.
      destruct (GetQuiz qs quizID) as [[quiz|e] qs1]; simpl in *; [|done].
      case_decide; [done|].
      match goal with
      | |- context [SaveQuiz ?r ?q] =>
          pose proof (SaveQuiz_available r q) as H3;
          destruct (SaveQuiz r q) as [e3 rs3]
      end.
      simpl in *. rewrite broadcastToQuiz_available. simpl. congruence.
    + unfold EndQuiz. pose proof (GetQuiz_available qs quizID) as H.
      destruct (GetQuiz qs quizID) as [[quiz|e] qs1]; simpl in *; [|done].
      match goal with
      | |- context [SaveQuiz ?r ?q] =>
          pose proof (SaveQuiz_available r q) as H3;
          destruct (SaveQuiz r q) as [e3 rs3]
      end.
      simpl in *. rewrite broadcastToQuiz_available. simpl. congruence.
    + reflexivity.
    + unfold UnregisterClient. by destruct (Clients qs !! ptr).
    + apply GetQuiz_available.
  - intros msg qs'. unfold relay_step.
    destruct (msg_Payload msg); [|by intros [= <-]].
    case_decide; [discriminate|]. intros [= <-].
    apply broadcastToQuiz_available.
Qed.

Lemma availability_is_fixed_witness :
  IsAvailable (Redis (snd (CreateQuiz (mkService ∅ ∅ (Some failing_redis))
                             "Geo" "geo1" 0))) = true.
Proof.
  destruct (availability_is_fixed (mkService ∅ ∅ (Some failing_redis)))
    as [H _].
  exact (H (OpCreateQuiz "Geo" "geo1" 0)).
Defined.

(** ** Persistence failures are absorbed *)

Lemma broadcastLeaderboard_hit_Clients qs quizID order quiz :
  Quizzes qs !! quizID = Some quiz ->
  Clients (broadcastLeaderboard qs quizID order)
  = deliver_local quizID (leaderboard_update (Quiz_GetLeaderboard quiz order))
      (map_to_list (Clients qs)).*1 (Clients qs).
Proof.
  intros Hq. unfold broadcastLeaderboard, GetLeaderboard.
  rewrite (GetQuiz_hit _ _ _ Hq).
  destruct (SaveLeaderboard _ _ _) as [err rs].
  by rewrite broadcastToQuiz_Clients.
Qed.

(** The tail of JoinQuiz and SubmitAnswer, as far as memory goes. *)
Lemma tail_in_memory qs quizID quiz message order :
  Quizzes qs !! quizID = Some quiz ->
  Quizzes (broadcastLeaderboard (broadcastToQuiz qs quizID message) quizID order)
  = Quizzes qs /\
  Clients (broadcastLeaderboard (broadcastToQuiz qs quizID message) quizID order)
  = deliver_local quizID (leaderboard_update (Quiz_GetLeaderboard quiz order))
      (map_to_list
         (deliver_local quizID message (map_to_list (Clients qs)).*1
            (Clients qs))).*1
      (deliver_local quizID message (map_to_list (Clients qs)).*1 (Clients qs)).
Proof.
  intros Hq.
  assert (Hq' : Quizzes (broadcastToQuiz qs quizID message) !! quizID
                = Some quiz) by (by rewrite broadcastToQuiz_Quizzes).
  split.
  - rewrite broadcastLeaderboard_Quizzes_hit by (by eexists).
    apply broadcastToQuiz_Quizzes.
  - rewrite (broadcastLeaderboard_hit_Clients _ _ _ _ Hq').
    by rewrite broadcastToQuiz_Clients.
Qed.

(** X12. For a quiz held in memory, what JoinQuiz, SubmitAnswer,
    StartQuiz and EndQuiz return, the quizzes in memory and the
    registry of clients afterwards are the same whatever the Redis of
    the service is: absent, failing or answering. *)
Theorem Redis_does_not_decide
    (qs : QuizService) (rs : RedisService) (quizID : string) (quiz : Quiz) :
  Quizzes qs !! quizID = Some quiz ->
  (forall userName userID now order,
     same_outcome (JoinQuiz (set_Redis qs rs) quizID userName userID now order)
                  (JoinQuiz qs quizID userName userID now order)) /\
  (forall userID questionID choice now order,
     same_outcome
       (SubmitAnswer (set_Redis qs rs) quizID userID questionID choice now order)
       (SubmitAnswer qs quizID userID questionID choice now order)) /\
  (forall now,
     same_outcome (StartQuiz (set_Redis qs rs) quizID now)
                  (StartQuiz qs quizID now)) /\
  (forall now,
     same_outcome (EndQuiz (set_Redis qs rs) quizID now)
                  (EndQuiz qs quizID now)).
Proof.
  intros Hq.
  assert (Hq' : Quizzes (set_Redis qs rs) !! quizID = Some quiz) by exact Hq.
  unfold same_outcome. split_and!.
  - intros userName userID now order. unfold JoinQuiz.
    rewrite (GetQuiz_hit _ _ _ Hq), (GetQuiz_hit _ _ _ Hq').
    repeat match goal with
           | |- context [SaveQuiz ?r ?q] => destruct (SaveQuiz r q) as [? ?]
           | |- context [SaveUser ?r ?u] => destruct (SaveUser r u) as [? ?]
           end.
    cbn [fst snd]. split; [reflexivity|].
    edestruct (tail_in_memory) as [-> ->];
      [|edestruct (tail_in_memory) as [-> ->]];
      [cbn [set_Redis set_Quizzes Quizzes]; apply lookup_insert_eq..|].
    split; reflexivity.
  - intros userID questionID choice now order. unfold SubmitAnswer.
    rewrite (GetQuiz_hit _ _ _ Hq), (GetQuiz_hit _ _ _ Hq').
    destruct (z_Participants quiz !! userID) as [user|]; [|by split_and!].
    destruct (HasAnswered user questionID); [by split_and!|].
    destruct (find_question _ _) as [question|]; [|by split_and!].
    repeat match goal with
           | |- context [SaveQuiz ?r ?q] => destruct (SaveQuiz r q) as [? ?]
           | |- context [SaveUser ?r ?u] => destruct (SaveUser r u) as [? ?]
           end.
    cbn [fst snd]. split; [reflexivity|].
    edestruct (tail_in_memory) as [-> ->];
      [|edestruct (tail_in_memory) as [-> ->]];
      [cbn [set_Redis set_Quizzes Quizzes]; apply lookup_insert_eq..|].
    split; reflexivity.
  - intros now. unfold StartQuiz.
    rewrite (GetQuiz_hit _ _ _ Hq), (GetQuiz_hit _ _ _ Hq').
    case_decide; [by split_and!|].
    repeat match goal with
           | |- context [SaveQuiz ?r ?q] => destruct (SaveQuiz r q) as [? ?]
           end.
    cbn [fst snd]. rewrite !broadcastToQuiz_Quizzes, !broadcastToQuiz_Clients.
    by split_and!.
  - intros now. unfold EndQuiz.
    rewrite (GetQuiz_hit _ _ _ Hq), (GetQuiz_hit _ _ _ Hq').
    repeat match goal with
           | |- context [SaveQuiz ?r ?q] => destruct (SaveQuiz r q) as [? ?]
           end.
    cbn [fst snd]. rewrite !broadcastToQuiz_Quizzes, !broadcastToQuiz_Clients.
    by split_and!.
Qed.

Lemma Redis_does_not_decide_witness :
  same_outcome
    (SubmitAnswer (set_Redis hub_service (Some failing_redis))
       "geo" "u1" "q2" 2 9 ["u1"; "u2"])
    (SubmitAnswer hub_service "geo" "u1" "q2" 2 9 ["u1"; "u2"]).
Proof.
  destruct (Redis_does_not_decide hub_service (Some failing_redis) "geo" geo
              eq_refl) as (_ & H & _).
  apply H.
Defined.

(** ** The status does not gate joining and answering *)

(** X13. JoinQuiz and SubmitAnswer do not look at the status of the
    quiz: whatever status and stamps the quiz in memory has (Waiting,
    Active or Ended), they return the same value, and the quiz
    afterwards has the same participants, with the status and stamps
    it had. *)
Theorem status_is_not_checked
    (qs : QuizService) (quizID : string) (quiz : Quiz)
    (st : QuizStatus) (started ended : option Z) :
  Quizzes qs !! quizID = Some quiz ->
  (forall userID questionID choice now order,
     fst (SubmitAnswer (restamped qs quizID quiz st started ended)
            quizID userID questionID choice now order)
     = fst (SubmitAnswer qs quizID userID questionID choice now order) /\
     exists q1 q2,
       Quizzes (snd (SubmitAnswer (restamped qs quizID quiz st started ended)
                       quizID userID questionID choice now order)) !! quizID
       = Some q1 /\
       Quizzes (snd (SubmitAnswer qs quizID userID questionID choice now order))
         !! quizID = Some q2 /\
       z_Participants q1 = z_Participants q2 /\
       z_Status q1 = st /\ z_StartedAt q1 = started /\ z_EndedAt q1 = ended) /\
  (forall userName userID now order,
     fst (JoinQuiz (restamped qs quizID quiz st started ended)
            quizID userName userID now order)
     = fst (JoinQuiz qs quizID userName userID now order) /\
     exists q1 q2,
       Quizzes (snd (JoinQuiz (restamped qs quizID quiz st started ended)
                       quizID userName userID now order)) !! quizID = Some q1 /\
       Quizzes (snd (JoinQuiz qs quizID userName userID now order)) !! quizID
       = Some q2 /\
       z_Participants q1 = z_Participants q2 /\
       z_Status q1 = st /\ z_StartedAt q1 = started /\ z_EndedAt q1 = ended).
Proof.
  intros Hq.
  assert (Hq' : Quizzes (restamped qs quizID quiz st started ended) !! quizID
                = Some (set_Status quiz st started ended)).
  { apply lookup_insert_eq. }
  split.
  - intros userID questionID choice now order.
    destruct (z_Participants quiz !! userID) as [user|] eqn:Hu.
    2:{ unfold SubmitAnswer.
        rewrite (GetQuiz_hit _ _ _ Hq), (GetQuiz_hit _ _ _ Hq').
        cbn [set_Status z_Participants]. rewrite Hu. split; [done|].
        by eexists _, _. }
    destruct (HasAnswered user questionID) eqn:Hans.
    { unfold SubmitAnswer.
      rewrite (GetQuiz_hit _ _ _ Hq), (GetQuiz_hit _ _ _ Hq').
      cbn [set_Status z_Participants]. rewrite Hu, Hans. split; [done|].
      by eexists _, _. }
    destruct (find_question (z_Questions quiz) questionID) as [question|]
      eqn:Hfind.
    2:{ unfold SubmitAnswer.
        rewrite (GetQuiz_hit _ _ _ Hq), (GetQuiz_hit _ _ _ Hq').
        cbn [set_Status z_Participants z_Questions]. rewrite Hu, Hans, Hfind.
        split; [done|]. by eexists _, _. }
    destruct (SubmitAnswer_accepts qs quizID userID questionID choice now order
                quiz qs user question (GetQuiz_hit _ _ _ Hq) Hu Hans Hfind)
      as (qs2 & -> & Hz2).
    destruct (SubmitAnswer_accepts (restamped qs quizID quiz st started ended)
                quizID userID questionID choice now order
                (set_Status quiz st started ended) _ user question
                (GetQuiz_hit _ _ _ Hq') Hu Hans Hfind)
      as (qs1 & -> & Hz1).
    cbn [fst snd]. split; [done|]. rewrite Hz1, Hz2, !lookup_insert_eq.
    by eexists _, _.
  - intros userName userID now order.
    rewrite (surjective_pairing (JoinQuiz qs _ _ _ _ _)).
    rewrite (surjective_pairing (JoinQuiz (restamped _ _ _ _ _ _) _ _ _ _ _)).
    cbn [fst snd].
    rewrite (JoinQuiz_Quizzes qs quizID userName userID now order quiz qs
               (GetQuiz_hit _ _ _ Hq)).
    rewrite (JoinQuiz_Quizzes _ quizID userName userID now order _ _
               (GetQuiz_hit _ _ _ Hq')).
    rewrite !lookup_insert_eq. split.
    + unfold JoinQuiz.
      rewrite (GetQuiz_hit _ _ _ Hq), (GetQuiz_hit _ _ _ Hq').
      repeat match goal with
             | |- context [SaveQuiz ?r ?q] => destruct (SaveQuiz r q) as [? ?]
             | |- context [SaveUser ?r ?u] => destruct (SaveUser r u) as [? ?]
             end.
      reflexivity.
    + by eexists _, _.
Qed.

Lemma status_is_not_checked_witness :
  fst (SubmitAnswer
         (restamped local_service "geo" geo QuizStatusEnded (Some 3) (Some 8))
         "geo" "u1" "q2" 2 9 ["u1"; "u2"]) = None.
Proof.
  destruct (status_is_not_checked local_service "geo" geo QuizStatusEnded
              (Some 3) (Some 8) eq_refl) as [H _].
  destruct (H "u1" "q2" 2 9 ["u1"; "u2"]) as [-> _].
  vm_compute. reflexivity.
Defined.

(** ** Starting and ending *)

(** X14. For a quiz in memory.  Starting a Waiting quiz stamps the
    start time and leaves the end stamp, the participants and the
    questions as they are, and the clients of the quiz are sent the
    start event; starting a quiz that is not Waiting changes nothing at
    all.  Ending stamps the end time and keeps the start stamp (none if
    the quiz never started), and sends the end event; ending again
    succeeds again and replaces the end time by the later one. *)
Theorem start_and_end_stamps
    (qs : QuizService) (quizID : string) (quiz : Quiz) (now : Z) :
  Quizzes qs !! quizID = Some quiz ->
  (z_Status quiz = QuizStatusWaiting ->
     exists qs',
       StartQuiz qs quizID now = (None, qs') /\
       Quizzes qs'
       = <[quizID := set_Status quiz QuizStatusActive (Some now) (z_EndedAt quiz)]>
           (Quizzes qs) /\
       forall p, Clients qs' !! p
                 = Clients qs !! p ≫= delivered quizID (quiz_started quizID now)) /\
  (z_Status quiz <> QuizStatusWaiting ->
     StartQuiz qs quizID now = (Some ErrNotWaiting, qs)) /\
  (exists qs',
     EndQuiz qs quizID now = (None, qs') /\
     Quizzes qs'
     = <[quizID := set_Status quiz QuizStatusEnded (z_StartedAt quiz) (Some now)]>
         (Quizzes qs) /\
     (forall p, Clients qs' !! p
                = Clients qs !! p ≫= delivered quizID (quiz_ended quizID now)) /\
     forall later, exists qs'',
       EndQuiz qs' quizID later = (None, qs'') /\
       Quizzes qs''
       = <[quizID := set_Status quiz QuizStatusEnded (z_StartedAt quiz)
                       (Some later)]> (Quizzes qs)).
Proof.
  intros Hq. pose proof (GetQuiz_hit _ _ _ Hq) as Hget. split_and!.
  - intros Hst. unfold StartQuiz. rewrite Hget.
    rewrite decide_False by (by intros ?).
    destruct (SaveQuiz _ _) as [e3 rs3].
    eexists. split; [reflexivity|]. split.
    + by rewrite broadcastToQuiz_Quizzes.
    + intros p. by rewrite broadcastToQuiz_lookup.
  - intros Hst. by apply (StartQuiz_rejects _ _ _ quiz).
  - unfold EndQuiz at 1. rewrite Hget.
    destruct (SaveQuiz _ _) as [e3 rs3].
    eexists. split; [reflexivity|]. split_and!.
    + by rewrite broadcastToQuiz_Quizzes.
    + intros p. by rewrite broadcastToQuiz_lookup.
    + intros later.
      match goal with
      | |- context [EndQuiz ?q1 quizID later] => set (qs1 := q1)
      end.
      assert (Hq1 : Quizzes qs1 !! quizID
                    = Some (set_Status quiz QuizStatusEnded (z_StartedAt quiz)
                              (Some now))).
      { unfold qs1. rewrite broadcastToQuiz_Quizzes. apply lookup_insert_eq. }
      destruct (EndQuiz_ends qs1 quizID later _ qs1 (GetQuiz_hit _ _ _ Hq1))
        as (qs'' & Hs & Hz).
      exists qs''. split; [exact Hs|]. rewrite Hz. unfold qs1.
      rewrite broadcastToQuiz_Quizzes. simpl. by rewrite insert_insert_eq.
Qed.

Lemma start_and_end_stamps_witness :
  exists qs',
    EndQuiz waiting_service "geo1" 5 = (None, qs') /\
    z_EndedAt <$> Quizzes qs' !! "geo1" = Some (Some 5) /\
    z_StartedAt <$> Quizzes qs' !! "geo1" = Some None.
Proof.
  destruct (start_and_end_stamps waiting_service "geo1" (new_quiz "Geo" "geo1" 0)
              5 eq_refl) as (_ & _ & qs' & Hs & Hz & _).
  exists qs'. split; [exact Hs|]. rewrite Hz, lookup_insert_eq. by split.
Defined.

(** ** Building the service from Redis *)

Lemma load_quizzes_healthy members : forall qs c,
  Redis qs = Some c -> r_faults c = [] ->
  Redis (load_quizzes qs members) = Some c /\
  Clients (load_quizzes qs members) = Clients qs /\
  forall id,
    Quizzes (load_quizzes qs members) !! id
    = match (if decide (id ∈ members) then r_quiz c !! id else None) with
      | Some q => Some q
      | None => Quizzes qs !! id
      end.
Proof.
  induction members as [|quizID members IH]; intros qs c Hr Hf.
  - simpl. split_and!; [done..|]. intros id.
    destruct (decide (id ∈ [])) as [Hin|]; [|done].
    by apply not_elem_of_nil in Hin.
  - cbn [load_quizzes]. rewrite Hr, (Redis_GetQuiz_healthy c quizID Hf).
    destruct (r_quiz c !! quizID) as [quiz|] eqn:Hq.
    + destruct (IH (mkService (<[quizID := quiz]> (Quizzes qs)) (Clients qs)
                      (Some c)) c eq_refl Hf) as (Hr' & Hc' & Hl).
      split_and!; [done..|]. intros id. rewrite Hl. simpl.
      destruct (decide (id = quizID)) as [->|Hne].
      * rewrite lookup_insert_eq, (decide_True (P := quizID ∈ quizID :: members))
          by left.
        rewrite Hq. by case_decide.
      * rewrite lookup_insert_ne by done.
        destruct (decide (id ∈ members)) as [Hin|Hin].
        -- by rewrite decide_True by (by right).
        -- rewrite decide_False; [done|]. by intros [?|?]%elem_of_cons.
    + destruct (IH (set_Redis qs (Some c)) c eq_refl Hf) as (Hr' & Hc' & Hl).
      split_and!; [done..|]. intros id. rewrite Hl. simpl.
      destruct (decide (id = quizID)) as [->|Hne].
      * rewrite (decide_True (P := quizID ∈ quizID :: members)) by left.
        rewrite Hq. by case_decide.
      * destruct (decide (id ∈ members)) as [Hin|Hin].
        -- by rewrite decide_True by (by right).
        -- rewrite decide_False; [done|]. by intros [?|?]%elem_of_cons.
Qed.

Lemma NewQuizService_healthy c members :
  r_faults c = [] ->
  Redis (NewQuizService (Some c) members) = Some c /\
  Clients (NewQuizService (Some c) members) = ∅ /\
  forall id q,
    Quizzes (NewQuizService (Some c) members) !! id = Some q <->
    id ∈ members /\ r_quiz c !! id = Some q.
Proof.
  intros Hf. unfold NewQuizService, loadQuizzesFromRedis.
  cbn [IsAvailable Redis GetActiveQuizzes].
  assert (Hcmd : command c = (false, c)).
  { destruct c as [? ? ? ? ? faults]. simpl in Hf. by subst faults. }
  rewrite Hcmd. cbn [set_Redis Quizzes Clients].
  destruct (load_quizzes_healthy members (mkService ∅ ∅ (Some c)) c
              eq_refl Hf) as (Hr & Hc & Hl).
  split_and!; [done..|]. intros id q. rewrite Hl. simpl.
  rewrite lookup_empty. case_decide as Hin.
  - destruct (r_quiz c !! id) as [q'|]; split.
    + by intros [= ->].
    + by intros [_ [= ->]].
    + discriminate.
    + by intros [_ ?].
  - split; [discriminate|]. by intros [? _].
Qed.

(** X15. A new service has no client.  Without Redis, or when the
    listing of the active set fails, it holds no quiz.  With a Redis
    that answers it holds exactly the quizzes that are both listed as
    active and stored: a listed id whose quiz is gone is skipped, a
    stored quiz that is not listed is not loaded. *)
Theorem NewQuizService_loads (members : list string) :
  NewQuizService None members = empty_service /\
  (forall c fs, r_faults c = true :: fs ->
     Quizzes (NewQuizService (Some c) members) = ∅ /\
     Clients (NewQuizService (Some c) members) = ∅) /\
  (forall c, r_faults c = [] ->
     Redis (NewQuizService (Some c) members) = Some c /\
     Clients (NewQuizService (Some c) members) = ∅ /\
     forall id q,
       Quizzes (NewQuizService (Some c) members) !! id = Some q <->
       id ∈ members /\ r_quiz c !! id = Some q).
Proof.
  split_and!.
  - reflexivity.
  - intros [? ? ? ? ? faults] fs Hf. simpl in Hf. subst faults. by split.
  - intros c Hf. by apply NewQuizService_healthy.
Qed.

(** X16. What has been saved is there after a restart: when a quiz has
    been saved on a Redis that answers, a service built on that Redis,
    the active set being listed in any order, holds the quiz under its
    id. *)
Theorem saved_quiz_survives_restart
    (c : RedisClient) (quiz : Quiz) (members : list string) (c' : RedisClient) :
  r_faults c = [] ->
  snd (SaveQuiz (Some c) quiz) = Some c' ->
  members ≡ₚ elements (r_active c') ->
  Quizzes (NewQuizService (Some c') members) !! z_ID quiz = Some quiz.
Proof.
  intros Hf Hs Hm. rewrite (SaveQuiz_healthy c quiz Hf) in Hs.
  injection Hs as <-.
  destruct (NewQuizService_healthy
              (sadd_active (set_quiz c (z_ID quiz) quiz) (z_ID quiz)) members Hf)
    as (_ & _ & Hl).
  apply Hl. split.
  - rewrite Hm. apply elem_of_elements. simpl. set_solver.
  - simpl. apply lookup_insert_eq.
Qed.

Lemma saved_quiz_survives_restart_witness :
  Quizzes (NewQuizService (snd (SaveQuiz (Some working_redis) geo)) ["geo"])
    !! "geo" = Some geo.
Proof.
  apply (saved_quiz_survives_restart working_redis geo ["geo"]
           (sadd_active (set_quiz working_redis "geo" geo) "geo")).
  - reflexivity.
  - reflexivity.
  - vm_compute. reflexivity.
Defined.

Lemma NewQuizService_loads_witness :
  Quizzes (NewQuizService (Some failing_redis) ["geo"]) = ∅.
Proof.
  destruct (NewQuizService_loads ["geo"]) as (_ & H & _).
  exact (proj1 (H failing_redis [] eq_refl)).
Defined.

(** ** Deleting a quiz over HTTP *)

(** X17. The delete handler answers 400 to an empty id and changes
    nothing.  For any other id it answers 200, whether or not the quiz
    existed; the quiz is out of memory, the other quizzes in memory and
    all the clients, those of the deleted quiz included, are left as
    they are.  Without Redis, or with a Redis that answers, the service
    no longer knows the quiz: [GetQuiz] reports it as not found. *)
Theorem HTTP_DeleteQuiz_spec (qs : QuizService) (quizID : string) :
  HTTP_DeleteQuiz qs "" = (400%nat, qs) /\
  (quizID <> "" ->
     fst (HTTP_DeleteQuiz qs quizID) = 200%nat /\
     Quizzes (snd (HTTP_DeleteQuiz qs quizID)) = delete quizID (Quizzes qs) /\
     Clients (snd (HTTP_DeleteQuiz qs quizID)) = Clients qs /\
     (Redis qs = None \/ healthy (Redis qs) ->
        known_quiz (snd (HTTP_DeleteQuiz qs quizID)) quizID = None /\
        fst (GetQuiz (snd (HTTP_DeleteQuiz qs quizID)) quizID)
        = Err (ErrQuizNotFound quizID))).
Proof.
  split; [reflexivity|]. intros Hne. unfold HTTP_DeleteQuiz.
  rewrite decide_False by done.
  pose proof (Redis_DeleteQuiz_nil (Redis qs) quizID) as Herr.
  cbn [set_Quizzes Redis].
  destruct (Redis_DeleteQuiz (Redis qs) quizID) as [err rs] eqn:Hd.
  simpl in Herr. subst err. cbn [fst snd set_Redis Quizzes Clients].
  split_and!; try reflexivity.
  intros Hav.
  assert (Hrq : redis_quizzes rs !! quizID = None /\
                fst (Redis_GetQuiz rs quizID) = None).
  { destruct Hav as [Hn|(c & Hc & Hf)].
    - rewrite Hn in Hd. simpl in Hd. by injection Hd as <-.
    - rewrite Hc, (Redis_DeleteQuiz_healthy c quizID Hf) in Hd.
      injection Hd as <-.
      rewrite Redis_GetQuiz_healthy by exact Hf. simpl.
      split; apply lookup_delete_eq. }
  destruct Hrq as [Hrq Hget]. split.
  - unfold known_quiz. simpl. by rewrite lookup_delete_eq.
  - unfold GetQuiz. simpl. rewrite lookup_delete_eq.
    destruct (Redis_GetQuiz rs quizID) as [[q|] rs']; simpl in Hget;
      [discriminate|reflexivity].
Qed.

Lemma HTTP_DeleteQuiz_spec_witness :
  fst (GetQuiz (snd (HTTP_DeleteQuiz local_service "geo")) "geo")
  = Err (ErrQuizNotFound "geo").
Proof.
  destruct (HTTP_DeleteQuiz_spec local_service "geo") as [_ H].
  destruct (H ltac:(discriminate)) as (_ & _ & _ & H').
  destruct (H' (or_introl eq_refl)) as [_ Hg]. exact Hg.
Defined.

(** X18. When the command that deletes the quiz's key fails, the
    handler still answers 200, and the quiz, gone from memory, is
    still in Redis: the next [GetQuiz] finds it there and puts it back
    in memory. *)
Theorem HTTP_DeleteQuiz_can_leave_the_quiz
    (qs : QuizService) (c : RedisClient) (quizID : string) (quiz : Quiz) :
  quizID <> "" ->
  Redis qs = Some c -> r_faults c = [true] ->
  r_quiz c !! quizID = Some quiz ->
  fst (HTTP_DeleteQuiz qs quizID) = 200%nat /\
  Quizzes (snd (HTTP_DeleteQuiz qs quizID)) !! quizID = None /\
  exists qs',
    GetQuiz (snd (HTTP_DeleteQuiz qs quizID)) quizID = (Ok quiz, qs') /\
    Quizzes qs' !! quizID = Some quiz.
Proof.
  intros Hne Hr Hf Hq. unfold HTTP_DeleteQuiz.
  rewrite decide_False by done. cbn [set_Quizzes Redis]. rewrite Hr.
  destruct c as [qz us lbs act pub faults]. simpl in Hf, Hq. subst faults.
  simpl. split; [reflexivity|]. split; [apply lookup_delete_eq|].
  unfold GetQuiz. simpl. rewrite lookup_delete_eq, Hq.
  eexists. split; [reflexivity|]. simpl. apply lookup_insert_eq.
Qed.

Lemma HTTP_DeleteQuiz_can_leave_the_quiz_witness :
  fst (GetQuiz
         (snd (HTTP_DeleteQuiz
                 (mkService (<["geo" := geo]> ∅) ∅
                    (Some (mkRedis (<["geo" := geo]> ∅) ∅ ∅ ∅ [] [true])))
                 "geo")) "geo") = Ok geo.
Proof.
  destruct (HTTP_DeleteQuiz_can_leave_the_quiz
              (mkService (<["geo" := geo]> ∅) ∅
                 (Some (mkRedis (<["geo" := geo]> ∅) ∅ ∅ ∅ [] [true])))
              (mkRedis (<["geo" := geo]> ∅) ∅ ∅ ∅ [] [true]) "geo" geo
              ltac:(discriminate) eq_refl eq_refl eq_refl)
    as (_ & _ & qs' & Hg & _).
  by rewrite Hg.
Defined.

(** ** Joining *)

(** X19. [JoinQuiz] fails exactly when [GetQuiz] does, with its
    not-found error and the state [GetQuiz] left.  Otherwise it returns
    a user with the generated id, the name given, score 0 and no
    answer, whatever Redis does; the quiz in memory then has this user
    under the id, its other participants, its questions and its status
    are unchanged, the other quizzes too, and with a new id the quiz
    has one participant more. *)
Theorem JoinQuiz_spec
    (qs : QuizService) (quizID userName userID : string) (now : Z)
    (order : list string) :
  (forall e qs1, GetQuiz qs quizID = (Err e, qs1) ->
     JoinQuiz qs quizID userName userID now order = (Err e, qs1) /\
     kind_of e = NotFound) /\
  (forall quiz qs1, GetQuiz qs quizID = (Ok quiz, qs1) ->
     exists qs' quiz',
       JoinQuiz qs quizID userName userID now order
       = (Ok (mkUser userID userName 0 [] now), qs') /\
       Quizzes qs' !! quizID = Some quiz' /\
       z_Participants quiz' !! userID = Some (mkUser userID userName 0 [] now) /\
       (forall uid, uid <> userID ->
          z_Participants quiz' !! uid = z_Participants quiz !! uid) /\
       z_Questions quiz' = z_Questions quiz /\
       z_Status quiz' = z_Status quiz /\
       (forall id, id <> quizID -> Quizzes qs' !! id = Quizzes qs1 !! id) /\
       (z_Participants quiz !! userID = None ->
          size (z_Participants quiz') = S (size (z_Participants quiz)))).
Proof.
  split.
  - intros e qs1 Hget. split.
    + unfold JoinQuiz. by rewrite Hget.
    + by rewrite (GetQuiz_Err _ _ _ _ Hget).
  - intros quiz qs1 Hget.
    pose proof (JoinQuiz_Quizzes qs quizID userName userID now order quiz qs1
                  Hget) as Hz.
    exists (snd (JoinQuiz qs quizID userName userID now order)),
      (AddParticipant quiz (mkUser userID userName 0 [] now)).
    split_and!.
    + unfold JoinQuiz. rewrite Hget.
      destruct (SaveQuiz _ _) as [e3 rs3]. by destruct (SaveUser _ _) as [e4 rs4].
    + rewrite Hz. apply lookup_insert_eq.
    + simpl. apply lookup_insert_eq.
    + intros uid Hne. simpl. by rewrite lookup_insert_ne.
    + reflexivity.
    + reflexivity.
    + intros id Hne. rewrite Hz. by rewrite lookup_insert_ne.
    + intros Hnew. simpl. by rewrite map_size_insert_None.
Qed.

Lemma JoinQuiz_spec_witness :
  exists qs' quiz',
    JoinQuiz local_service "geo" "Dan" "u9" 9 ["u1"; "u2"; "u9"]
    = (Ok (mkUser "u9" "Dan" 0 [] 9), qs') /\
    Quizzes qs' !! "geo" = Some quiz' /\
    size (z_Participants quiz') = 3%nat.
Proof.
  destruct (JoinQuiz_spec local_service "geo" "Dan" "u9" 9 ["u1"; "u2"; "u9"])
    as [_ H].
  destruct (H geo local_service eq_refl)
    as (qs' & quiz' & Hj & Hq & _ & _ & _ & _ & _ & Hsize).
  exists qs', quiz'. split_and!; [exact Hj|exact Hq|].
  rewrite Hsize; [|reflexivity]. vm_compute. reflexivity.
Defined.

(** ** Participants of a quiz *)

(** X20. Adding a participant stores the user under the user's id and
    replaces whoever was there; removing deletes the entry of the id
    and nothing else, and does nothing when the id is not there;
    adding a user under a new id and removing that id gives the quiz
    back.  The leaderboard of a quiz from which a participant was
    removed lists exactly the participants left. *)
Theorem participants_add_and_remove (q : Quiz) (user : User) (userID : string) :
  z_Participants (AddParticipant q user) !! u_ID user = Some user /\
  (forall uid, uid <> u_ID user ->
     z_Participants (AddParticipant q user) !! uid = z_Participants q !! uid) /\
  z_Participants (RemoveParticipant q userID) !! userID = None /\
  (forall uid, uid <> userID ->
     z_Participants (RemoveParticipant q userID) !! uid
     = z_Participants q !! uid) /\
  (z_Participants q !! userID = None -> RemoveParticipant q userID = q) /\
  (z_Participants q !! u_ID user = None ->
     RemoveParticipant (AddParticipant q user) (u_ID user) = q) /\
  (forall order,
     range_of (delete userID (z_Participants q)) order ->
     entry_key <$> Quiz_GetLeaderboard (RemoveParticipant q userID) order
       ≡ₚ user_key <$> (map_to_list (delete userID (z_Participants q))).*2).
Proof.
  destruct q as [id title questions ps st created started ended].
  unfold AddParticipant, RemoveParticipant, set_Participants. simpl.
  split_and!.
  - apply lookup_insert_eq.
  - intros uid Hne. by apply lookup_insert_ne.
  - apply lookup_delete_eq.
  - intros uid Hne. by apply lookup_delete_ne.
  - intros Hn. by rewrite delete_id.
  - intros Hn. by rewrite delete_insert_id.
  - intros order Hr.
    exact (Quiz_GetLeaderboard_keys
             (mkQuiz id title questions (delete userID ps) st created started
                ended) order Hr).
Qed.

Lemma participants_add_and_remove_witness :
  RemoveParticipant (AddParticipant geo carol) "u3" = geo.
Proof.
  destruct (participants_add_and_remove geo carol "u3")
    as (_ & _ & _ & _ & _ & H & _).
  apply H. reflexivity.
Defined.

(** ** The sort on entries already in order *)

Lemma swap_if_less_sorted (i j : nat) (es : list LeaderboardEntry) :
  (i < j)%nat ->
  (forall (k m : nat) x y, (k < m)%nat -> es !! k = Some x -> es !! m = Some y ->
     e_Score y <= e_Score x) ->
  swap_if_less i j es = es.
Proof.
  intros Hij Hs. unfold swap_if_less.
  destruct (es !! i) as [a|] eqn:Ha; [|done].
  destruct (es !! j) as [b|] eqn:Hb; [|done].
  rewrite decide_False; [done|].
  pose proof (Hs i j a b Hij Ha Hb). lia.
Qed.

Lemma inner_loop_sorted (n : nat) : forall (i j : nat) (es : list LeaderboardEntry),
  (i < j)%nat ->
  (forall (k m : nat) x y, (k < m)%nat -> es !! k = Some x -> es !! m = Some y ->
     e_Score y <= e_Score x) ->
  inner_loop n i j es = es.
Proof.
  induction n as [|n IH]; intros i j es Hij Hs; [done|].
  simpl. rewrite swap_if_less_sorted by done. apply IH; [lia|done].
Qed.

Lemma outer_loop_sorted (n : nat) : forall (i : nat) (es : list LeaderboardEntry),
  (forall (k m : nat) x y, (k < m)%nat -> es !! k = Some x -> es !! m = Some y ->
     e_Score y <= e_Score x) ->
  outer_loop n i es = es.
Proof.
  induction n as [|n IH]; intros i es Hs; [done|].
  simpl. rewrite inner_loop_sorted by (done || lia). by apply IH.
Qed.

(** X21. The sort leaves entries that are already in descending order
    of score exactly as they are, ties included: when the participants
    are visited in such an order, the leaderboard lists them in the
    order of the visit. *)
Theorem leaderboard_keeps_sorted_visit (q : Quiz) (order : list string) :
  (forall (k m : nat) x y, (k < m)%nat ->
     collect_entries (z_Participants q) order !! k = Some x ->
     collect_entries (z_Participants q) order !! m = Some y ->
     e_Score y <= e_Score x) ->
  sort_entries (collect_entries (z_Participants q) order)
  = collect_entries (z_Participants q) order /\
  entry_key <$> Quiz_GetLeaderboard q order
  = entry_key <$> collect_entries (z_Participants q) order.
Proof.
  intros Hs.
  assert (H : sort_entries (collect_entries (z_Participants q) order)
              = collect_entries (z_Participants q) order).
  { unfold sort_entries. by apply outer_loop_sorted. }
  split; [exact H|].
  unfold Quiz_GetLeaderboard. by rewrite add_positions_keys, H.
Qed.

Lemma leaderboard_keeps_sorted_visit_witness :
  entry_key <$> Quiz_GetLeaderboard tied ["u3"; "u1"]
  = entry_key <$> collect_entries (z_Participants tied) ["u3"; "u1"].
Proof.
  apply (leaderboard_keeps_sorted_visit tied ["u3"; "u1"]).
  intros k m x y Hkm Hx Hy.
  assert (Hm : (m < 2)%nat) by (apply lookup_lt_Some in Hy; exact Hy).
  assert (k = 0%nat /\ m = 1%nat) as [-> ->] by lia.
  vm_compute in Hx, Hy. injection Hx as <-. injection Hy as <-.
  simpl. lia.
Defined.

(** ** Reading the leaderboard *)

(** X22. [GetLeaderboard] fails exactly when [GetQuiz] does, with its
    not-found error.  Otherwise it returns the leaderboard of the quiz
    found and changes neither the quizzes [GetQuiz] left in memory nor
    the clients, and publishes nothing; with a Redis that answers, the
    leaderboard returned is what Redis then holds for the quiz id. *)
Theorem GetLeaderboard_reads
    (qs : QuizService) (quizID : string) (order : list string) :
  (forall e qs1, GetQuiz qs quizID = (Err e, qs1) ->
     GetLeaderboard qs quizID order = (Err e, qs1) /\ kind_of e = NotFound) /\
  (forall quiz qs1, GetQuiz qs quizID = (Ok quiz, qs1) ->
     exists qs',
       GetLeaderboard qs quizID order = (Ok (Quiz_GetLeaderboard quiz order), qs') /\
       Quizzes qs' = Quizzes qs1 /\ Clients qs' = Clients qs /\
       redis_quizzes (Redis qs') = redis_quizzes (Redis qs) /\
       redis_published (Redis qs') = redis_published (Redis qs) /\
       (healthy (Redis qs) ->
          fst (Redis_GetLeaderboard (Redis qs') quizID)
          = ROk (Quiz_GetLeaderboard quiz order))).
Proof.
  split.
  - intros e qs1 Hget. split.
    + unfold GetLeaderboard. by rewrite Hget.
    + by rewrite (GetQuiz_Err _ _ _ _ Hget).
  - intros quiz qs1 Hget.
    pose proof (GetQuiz_Clients qs quizID) as Hc.
    pose proof (GetQuiz_stored qs quizID) as Hst.
    rewrite Hget in Hc, Hst. simpl in Hc, Hst.
    unfold GetLeaderboard. rewrite Hget.
    pose proof (SaveLeaderboard_quizzes (Redis qs1) quizID
                  (Quiz_GetLeaderboard quiz order)) as Hq.
    pose proof (SaveLeaderboard_published (Redis qs1) quizID
                  (Quiz_GetLeaderboard quiz order)) as Hp.
    destruct (SaveLeaderboard _ _ _) as [err rs] eqn:Hs. simpl in Hq, Hp.
    eexists. split; [reflexivity|]. simpl. split_and!.
    + reflexivity.
    + exact Hc.
    + rewrite Hq. by apply stored_quizzes.
    + rewrite Hp. by apply stored_published.
    + intros (c & Hr & Hf).
      pose proof (GetQuiz_healthy qs quizID c Hr Hf) as Hr1.
      rewrite Hget in Hr1. simpl in Hr1. rewrite Hr1 in Hs.
      rewrite (SaveLeaderboard_healthy c _ _ Hf) in Hs. injection Hs as _ <-.
      destruct c as [? ? ? ? ? faults]. simpl in Hf. subst faults. simpl.
      by rewrite lookup_insert_eq.
Qed.

Lemma GetLeaderboard_reads_witness :
  fst (Redis_GetLeaderboard
         (Redis (snd (GetLeaderboard healthy_service "geo" ["u1"; "u2"]))) "geo")
  = ROk [mkEntry "u1" "Alice" 10 1; mkEntry "u2" "Bob" 0 2].
Proof.
  destruct (GetLeaderboard_reads healthy_service "geo" ["u1"; "u2"]) as [_ H].
  destruct (H geo healthy_service eq_refl) as (qs' & Hg & _ & _ & _ & _ & Hh).
  rewrite Hg. cbn [snd]. rewrite Hh.
  - vm_compute. reflexivity.
  - exists working_redis. by split.
Defined.

(** ** The relay and the quizzes *)

(** X23. The relay only delivers: whatever it receives, the quizzes in
    memory and the quizzes in Redis are, after the loop, what they
    were.  An event of another instance never changes the state of a
    quiz held here. *)
Theorem relay_never_changes_quizzes
    (inbound : list (option RedisMessage)) (qs qs' : QuizService) :
  subscription_loop qs inbound = Some qs' ->
  Quizzes qs' = Quizzes qs /\
  redis_quizzes (Redis qs') = redis_quizzes (Redis qs).
Proof.
  revert qs. induction inbound as [|[msg|] inbound IH]; intros qs;
    cbn [subscription_loop].
  - by intros [= <-].
  - destruct (relay_step qs msg) as [qs1|] eqn:Hstep; [|discriminate].
    intros Hloop. destruct (IH qs1 Hloop) as [-> ->].
    unfold relay_step in Hstep.
    destruct (msg_Payload msg); [|by injection Hstep as <-].
    case_decide; [discriminate|]. injection Hstep as <-.
    by rewrite broadcastToQuiz_Quizzes, broadcastToQuiz_quizzes.
  - by intros [= <-].
Qed.

Lemma relay_never_changes_quizzes_witness :
  Quizzes (broadcastToQuiz healthy_service "geo" ping) = Quizzes healthy_service.
Proof.
  apply (relay_never_changes_quizzes [Some inbound] healthy_service).
  reflexivity.
Defined.

(** ** Listing the active quizzes over HTTP *)

Lemma known_quiz_healthy qs c quizID :
  Redis qs = Some c -> r_faults c = [] ->
  GetQuiz qs quizID
  = match known_quiz qs quizID with
    | Some quiz =>
        (Ok quiz,
         match Quizzes qs !! quizID with
         | Some _ => qs
         | None => mkService (<[quizID := quiz]> (Quizzes qs)) (Clients qs) (Some c)
         end)
    | None => (Err (ErrQuizNotFound quizID), set_Redis qs (Some c))
    end.
Proof.
  intros Hr Hf. unfold GetQuiz, known_quiz.
  destruct (Quizzes qs !! quizID) as [quiz|]; [done|].
  rewrite Hr, (Redis_GetQuiz_healthy c quizID Hf). simpl.
  by destruct (r_quiz c !! quizID).
Qed.

Lemma omap_pointwise {A B} (f g : A -> option B) (l : list A) :
  (forall x, f x = g x) -> omap f l = omap g l.
Proof.
  intros H. induction l as [|x l IH]; [done|].
  cbn [omap list_omap]. by rewrite H, IH.
Qed.

Lemma collect_quizzes_healthy ids : forall qs c,
  Redis qs = Some c -> r_faults c = [] ->
  fst (collect_quizzes qs ids) = omap (known_quiz qs) ids /\
  forall id, known_quiz (snd (collect_quizzes qs ids)) id = known_quiz qs id.
Proof.
  induction ids as [|quizID ids IH]; intros qs c Hr Hf; [done|].
  cbn [collect_quizzes omap list_omap].
  pose proof (GetQuiz_healthy qs quizID c Hr Hf) as Hr1.
  pose proof (GetQuiz_known qs quizID) as Hk1.
  rewrite (known_quiz_healthy qs c quizID Hr Hf) in *.
  destruct (known_quiz qs quizID) as [quiz|] eqn:Hk; cbn [snd] in Hr1, Hk1.
  - destruct (IH _ c Hr1 Hf) as [Hl Hk'].
    destruct (collect_quizzes _ ids) as [quizzes qs2]. simpl in *. split.
    + rewrite Hl. f_equal. apply omap_pointwise, Hk1.
    + intros id. by rewrite Hk', Hk1.
  - destruct (IH _ c Hr1 Hf) as [Hl Hk']. split.
    + rewrite Hl. apply omap_pointwise, Hk1.
    + intros id. by rewrite Hk', Hk1.
Qed.

(** X24. Without Redis the list of active quizzes is empty, with
    status 200, whatever quizzes the service holds in memory.  When the
    listing fails the status is 500.  With a Redis that answers, the
    response has, in the order of the listing, the quiz the service
    knows for each listed id (the one in memory, else the one in
    Redis), skipping the ids it knows no quiz for; and no quiz the
    service knows is changed by the call. *)
Theorem HTTP_GetActiveQuizzes_spec (qs : QuizService) (members : list string) :
  (Redis qs = None -> HTTP_GetActiveQuizzes qs members = (200%nat, [], qs)) /\
  (forall c fs, Redis qs = Some c -> r_faults c = true :: fs ->
     fst (HTTP_GetActiveQuizzes qs members) = (500%nat, [])) /\
  (forall c, Redis qs = Some c -> r_faults c = [] ->
     fst (HTTP_GetActiveQuizzes qs members)
     = (200%nat, omap (known_quiz qs) members) /\
     forall id, known_quiz (snd (HTTP_GetActiveQuizzes qs members)) id
                = known_quiz qs id).
Proof.
  unfold HTTP_GetActiveQuizzes. split_and!.
  - intros Hr. rewrite Hr. simpl. destruct qs as [? ? rs]. simpl in Hr.
    by subst rs.
  - intros c fs Hr Hf. rewrite Hr. destruct c as [? ? ? ? ? faults].
    simpl in Hf. subst faults. reflexivity.
  - intros c Hr Hf. rewrite Hr. cbn [GetActiveQuizzes].
    assert (Hcmd : command c = (false, c)).
    { destruct c as [? ? ? ? ? faults]. simpl in Hf. by subst faults. }
    rewrite Hcmd.
    assert (Hqs : set_Redis qs (Some c) = qs).
    { destruct qs as [? ? rs]. simpl in Hr. by subst rs. }
    rewrite Hqs.
    destruct (collect_quizzes_healthy members qs c Hr Hf) as [Hl Hk].
    destruct (collect_quizzes qs members) as [quizzes qs']. simpl in *.
    split; [by rewrite Hl|exact Hk].
Qed.

Lemma HTTP_GetActiveQuizzes_spec_witness :
  HTTP_GetActiveQuizzes local_service ["geo"] = (200%nat, [], local_service).
Proof.
  destruct (HTTP_GetActiveQuizzes_spec local_service ["geo"]) as (H & _).
  apply H. reflexivity.
Defined.

(** ** The range of the scores *)






